(** * The player state machine of [src/player.c]

    A shallow embedding of the player controller: the per-state event
    handlers, the entry/update/exit hooks, the movement integrator and the
    resource pools, followed by the properties of the specification.

    Conventions of the embedding.
    - The C type [float] is read as an exact rational ([Q]): subtraction,
      comparison with a constant and assignment of a constant are what the
      control flow depends on, and they are kept as written.  Rounding of
      binary32 is not modelled.
    - The C type [int] is read as [Z]; [lives] stays inside [1, 4] in
      every reachable world (lemma [reachable_lives]), so no overflow is
      involved.
    - [GameObject *obj] and the cast [(Player * )obj] denote the same
      record: every function takes and returns the whole [World], which
      holds the player, the text written by [printf] together with the
      draw commands, and the number of calls made to [rand()].
    - [GetScreenWidth], [GetScreenHeight], [rand] and [UpdateAnimation]
      belong to collaborators outside the file; they are variables of the
      section [Controller].
    - [ChangeState], [InitGameObjectAnimation] and the two dispatchers are
      not part of [player.c]; they are modelled from the specification and
      each such definition says so. *)

From Stdlib Require Import QArith ZArith List String Bool Lia Lqa.
Import ListNotations.

Local Open Scope Z_scope.
Local Open Scope Q_scope.

(** ** Enumerations *)

(** [State]: the modes of a game object. [STATE_COLLISION] is reserved and
    gets the empty configuration. *)
Inductive State : Set :=
| STATE_IDLE
| STATE_WALKING
| STATE_MOVING_UP
| STATE_MOVING_DOWN
| STATE_MOVING_LEFT
| STATE_MOVING_RIGHT
| STATE_MOVING_UP_LEFT
| STATE_MOVING_UP_RIGHT
| STATE_MOVING_DOWN_LEFT
| STATE_MOVING_DOWN_RIGHT
| STATE_ATTACKING
| STATE_SHIELD
| STATE_DEAD
| STATE_RESPAWN
| STATE_COLLISION.

(** [Event]: the stimuli offered to a handler; [EVENT_COUNT] is the
    sentinel closing the C enumeration. *)
Inductive Event : Set :=
| EVENT_NONE
| EVENT_MOVE
| EVENT_MOVE_UP
| EVENT_MOVE_DOWN
| EVENT_MOVE_LEFT
| EVENT_MOVE_RIGHT
| EVENT_MOVE_UP_LEFT
| EVENT_MOVE_UP_RIGHT
| EVENT_MOVE_DOWN_LEFT
| EVENT_MOVE_DOWN_RIGHT
| EVENT_ATTACK
| EVENT_DEFEND
| EVENT_SHIELD
| EVENT_DIE
| EVENT_RESPAWN
| EVENT_COLLISION_START
| EVENT_COLLISION_END
| EVENT_COUNT.

(** An injective numbering of the states: [==] and [!=] on the C
    enumeration compare such integers (which integers the header assigns
    does not matter). *)
Definition State_index (s : State) : Z :=
  match s with
  | STATE_IDLE => 0
  | STATE_WALKING => 1
  | STATE_MOVING_UP => 2
  | STATE_MOVING_DOWN => 3
  | STATE_MOVING_LEFT => 4
  | STATE_MOVING_RIGHT => 5
  | STATE_MOVING_UP_LEFT => 6
  | STATE_MOVING_UP_RIGHT => 7
  | STATE_MOVING_DOWN_LEFT => 8
  | STATE_MOVING_DOWN_RIGHT => 9
  | STATE_ATTACKING => 10
  | STATE_SHIELD => 11
  | STATE_DEAD => 12
  | STATE_RESPAWN => 13
  | STATE_COLLISION => 14
  end%Z.

Definition State_eqb (a b : State) : bool :=
  (State_index a =? State_index b)%Z.

(** ** Geometry, animation and entity records *)

Record Vector2 : Set := mkVector2 { vx : Q; vy : Q }.

Record Rectangle : Set :=
  mkRectangle { rect_x : Q; rect_y : Q; rect_width : Q; rect_height : Q }.

Record Color : Set :=
  mkColor { col_r : Z; col_g : Z; col_b : Z; col_a : Z }.

(** cute_c2 circle: centre [p] and radius [r]. *)
Record c2Circle : Set := mkCircle { c2_p : Vector2; c2_r : Q }.

(** The animation cursor of a game object.  [player.c] reads
    [currentFrame] and [frameCount]; the remaining fields follow the
    specification (frames, per-frame duration, elapsed time). *)
Record Animation : Set := mkAnimation {
  frames : list Rectangle;
  frameCount : Z;
  currentFrame : Z;
  frameDuration : Q;
  elapsedTime : Q
}.

(** The fields of [GameObject] that [player.c] reads or writes.  The
    texture handle, the colour and the AABB passed to [InitGameObject] are
    never touched again by the file and are left out. *)
Record GameObject : Set := mkGameObject {
  name : string;
  position : Vector2;
  velocity : Vector2;
  previousState : State;
  currentState : State;
  lastDirection : State;
  collider : c2Circle;
  health : Q;
  speed : Q;
  animation : Animation
}.

Record Player : Set := mkPlayer {
  base : GameObject;
  stamina : Q;
  mana : Q;
  lives : Z;
  spawnPoint : Vector2;
  shieldColor : Color;
  shieldRadius : Q;
  shieldActive : bool
}.

(** What the program sends to the outside: the lines of [printf] (the
    object's name and the fixed part of the format), the second line with
    the two pools, and the circle handed to the renderer. *)
Inductive Output : Set :=
| Line (who : string) (what : string)
| Stats (st : Q) (mn : Q)
| Circle (cx cy : Z) (radius : Q) (tint : Color).

Record World : Set := mkWorld {
  player : Player;
  console : list Output;
  randCalls : nat
}.

(** ** Field updates *)

Definition obj (w : World) : GameObject := base (player w).

Definition upd_base (f : GameObject -> GameObject) (w : World) : World :=
  let p := player w in
  mkWorld (mkPlayer (f (base p)) (stamina p) (mana p) (lives p)
             (spawnPoint p) (shieldColor p) (shieldRadius p) (shieldActive p))
          (console w) (randCalls w).

Definition set_position (v : Vector2) : World -> World :=
  upd_base (fun g => mkGameObject (name g) v (velocity g) (previousState g)
    (currentState g) (lastDirection g) (collider g) (health g) (speed g)
    (animation g)).

Definition set_previousState (s : State) : World -> World :=
  upd_base (fun g => mkGameObject (name g) (position g) (velocity g) s
    (currentState g) (lastDirection g) (collider g) (health g) (speed g)
    (animation g)).

Definition set_currentState (s : State) : World -> World :=
  upd_base (fun g => mkGameObject (name g) (position g) (velocity g)
    (previousState g) s (lastDirection g) (collider g) (health g) (speed g)
    (animation g)).

Definition set_lastDirection (s : State) : World -> World :=
  upd_base (fun g => mkGameObject (name g) (position g) (velocity g)
    (previousState g) (currentState g) s (collider g) (health g) (speed g)
    (animation g)).

Definition set_collider_p (v : Vector2) : World -> World :=
  upd_base (fun g => mkGameObject (name g) (position g) (velocity g)
    (previousState g) (currentState g) (lastDirection g)
    (mkCircle v (c2_r (collider g))) (health g) (speed g) (animation g)).

Definition set_health (h : Q) : World -> World :=
  upd_base (fun g => mkGameObject (name g) (position g) (velocity g)
    (previousState g) (currentState g) (lastDirection g) (collider g) h
    (speed g) (animation g)).

Definition set_animation (a : Animation) : World -> World :=
  upd_base (fun g => mkGameObject (name g) (position g) (velocity g)
    (previousState g) (currentState g) (lastDirection g) (collider g)
    (health g) (speed g) a).

Definition set_stamina (q : Q) (w : World) : World :=
  let p := player w in
  mkWorld (mkPlayer (base p) q (mana p) (lives p) (spawnPoint p)
             (shieldColor p) (shieldRadius p) (shieldActive p))
          (console w) (randCalls w).

Definition set_mana (q : Q) (w : World) : World :=
  let p := player w in
  mkWorld (mkPlayer (base p) (stamina p) q (lives p) (spawnPoint p)
             (shieldColor p) (shieldRadius p) (shieldActive p))
          (console w) (randCalls w).

Definition set_lives (n : Z) (w : World) : World :=
  let p := player w in
  mkWorld (mkPlayer (base p) (stamina p) (mana p) n (spawnPoint p)
             (shieldColor p) (shieldRadius p) (shieldActive p))
          (console w) (randCalls w).

Definition set_shield (c : Color) (r : Q) (active : bool) (w : World) : World :=
  let p := player w in
  mkWorld (mkPlayer (base p) (stamina p) (mana p) (lives p) (spawnPoint p)
             c r active)
          (console w) (randCalls w).

(** [printf] and [DrawCircle]: the item is appended to what was sent so far. *)
Definition emit (o : Output) (w : World) : World :=
  mkWorld (player w) (console w ++ [o]) (randCalls w).

(** The two lines every logging hook prints: the tag, then both pools. *)
Definition log (what : string) (w : World) : World :=
  emit (Stats (stamina (player w)) (mana (player w)))
       (emit (Line (name (obj w)) what) w).

(** ** Comparisons and conversions of the C arithmetic *)

Definition Qleb (a b : Q) : bool := Qle_bool a b.
Definition Qltb (a b : Q) : bool := negb (Qle_bool b a).

(** The cast [(int)f]: the fractional part is discarded (towards zero). *)
Definition int_of_float (f : Q) : Z := Z.quot (Qnum f) (Zpos (Qden f)).

(** ** Sprite-sheet tables *)

(** One row of the sprite sheet: [n] cells of side [size] starting at
    height [y]; the literal arrays of the source list exactly these. *)
Fixpoint spriteCells (y size : Z) (i : Z) (n : nat) : list Rectangle :=
  match n with
  | O => []
  | S n' =>
      mkRectangle (inject_Z (i * size)) (inject_Z y)
                  (inject_Z size) (inject_Z size)
        :: spriteCells y size (i + 1) n'
  end.

Definition spriteRow (y size : Z) (n : nat) : list Rectangle :=
  spriteCells y size 0 n.

Definition idle1 := spriteRow 320 64 8.
Definition idle2 := spriteRow 384 64 8.
Definition idle3 := spriteRow 448 64 8.
Definition idle4 := spriteRow 1024 64 13.
Definition idle5 := spriteRow 1088 64 13.
Definition idle6 := spriteRow 1152 64 13.
Definition idle7 := spriteRow 1216 64 13.

Definition attackDown := spriteRow 3328 192 6.
Definition attackUp := spriteRow 2994 192 6.
Definition attackLeft := spriteRow 3136 192 6.
Definition attackRight := spriteRow 3520 192 6.

Definition deadFrames := spriteRow 1280 64 6.
Definition respawnFrames := spriteRow 384 64 8.
Definition shieldFrames := spriteRow 384 64 8.

(** The row chosen by the [switch] of [PlayerEnterWalking]. *)
Definition walkFrames (s : State) : list Rectangle :=
  match s with
  | STATE_MOVING_UP_LEFT => spriteRow 512 64 9
  | STATE_MOVING_UP_RIGHT => spriteRow 512 64 9
  | STATE_MOVING_DOWN_LEFT => spriteRow 640 64 9
  | STATE_MOVING_DOWN_RIGHT => spriteRow 640 64 9
  | STATE_MOVING_UP => spriteRow 512 64 9
  | STATE_MOVING_DOWN => spriteRow 640 64 9
  | STATE_MOVING_LEFT => spriteRow 576 64 9
  | STATE_MOVING_RIGHT => spriteRow 704 64 9
  | _ => spriteRow 512 64 9
  end.

(** Modelled from the spec: [InitGameObjectAnimation] is declared outside
    [player.c].  The specification has the animation sequence "replaced
    wholesale on every Entry" (frames, per-frame duration, elapsed time,
    current frame index): the first [count] frames are installed, the
    cursor returns to frame 0 and no time has elapsed. *)
Definition InitGameObjectAnimation
    (cells : list Rectangle) (count : Z) (duration : Q) (w : World) : World :=
  set_animation
    (mkAnimation (firstn (Z.to_nat count) cells) count 0 duration 0) w.

Definition say (what : string) (w : World) : World :=
  emit (Line (name (obj w)) what) w.

(** ** The state machine *)

Section Controller.

(** [GetScreenWidth()] and [GetScreenHeight()]. *)
Variables screenWidth screenHeight : Z.

(** [rand n] is the value returned by the [n]-th call of [rand()]. *)
Variable rand : nat -> Z.

(** [UpdateAnimation(&obj->animation)]: the animator of the game-object
    layer, which advances the cursor by the frame time. *)
Variable UpdateAnimation : Animation -> Animation.

Definition advanceAnimation (w : World) : World :=
  set_animation (UpdateAnimation (animation (obj w))) w.

Definition SelectRandomIdleAnimation (w : World) : World :=
  let randomChoice := (Z.rem (rand (randCalls w)) 7 + 1)%Z in
  let w := mkWorld (player w) (console w) (S (randCalls w)) in
  match randomChoice with
  | 1%Z => InitGameObjectAnimation idle1 8 0.2 w
  | 2%Z => InitGameObjectAnimation idle2 8 0.2 w
  | 3%Z => InitGameObjectAnimation idle3 8 0.2 w
  | 4%Z => InitGameObjectAnimation idle4 8 0.2 w
  | 5%Z => InitGameObjectAnimation idle5 8 0.2 w
  | 6%Z => InitGameObjectAnimation idle6 8 0.2 w
  | 7%Z => InitGameObjectAnimation idle7 8 0.2 w
  | _ => InitGameObjectAnimation idle1 8 0.2 w
  end.

(** *** Entry and exit hooks *)

Definition PlayerEnterIdle (w : World) : World :=
  let w := log "-> ENTER -> Idle" w in
  if negb (State_eqb (previousState (obj w)) (currentState (obj w)))
     && State_eqb (currentState (obj w)) STATE_IDLE
  then SelectRandomIdleAnimation w
  else w.

Definition PlayerExitIdle (w : World) : World := log "<- EXIT <- Idle" w.

Definition PlayerEnterWalking (w : World) : World :=
  let w := log "-> ENTER -> Walking" w in
  InitGameObjectAnimation (walkFrames (currentState (obj w))) 9 0.1 w.

Definition PlayerExitWalking (w : World) : World := log "<- EXIT <- Walking" w.

Definition PlayerEnterAttacking (w : World) : World :=
  let w := log "-> ENTER -> Attacking" w in
  match lastDirection (obj w) with
  | STATE_MOVING_UP => InitGameObjectAnimation attackUp 6 0.1 w
  | STATE_MOVING_DOWN => InitGameObjectAnimation attackDown 6 0.1 w
  | STATE_MOVING_LEFT => InitGameObjectAnimation attackLeft 6 0.1 w
  | STATE_MOVING_RIGHT => InitGameObjectAnimation attackRight 6 0.1 w
  | _ => InitGameObjectAnimation attackDown 6 0.1 w
  end.

Definition PlayerExitAttacking (w : World) : World :=
  log "<- EXIT <- Attacking" w.

Definition PlayerEnterDie (w : World) : World :=
  let w := say "-> ENTER -> Die" w in
  InitGameObjectAnimation deadFrames 6 0.2 w.

Definition PlayerExitDie (w : World) : World := say "<- EXIT <- Die" w.

Definition screenCentre : Vector2 :=
  mkVector2 (inject_Z screenWidth / 2.0) (inject_Z screenHeight / 2.0).

Definition PlayerEnterRespawn (w : World) : World :=
  let w := set_position screenCentre w in
  let w := set_health 100 w in
  let w := set_stamina 100 w in
  let w := set_mana 100 w in
  InitGameObjectAnimation respawnFrames 8 0.1 w.

Definition PlayerExitRespawn (w : World) : World := say "<- EXIT <- Respawn" w.

Definition PlayerEnterShield (w : World) : World :=
  let w := log "-> ENTER -> Shield" w in
  let w := set_shield (mkColor 0 255 128 128) 90.0 true w in
  InitGameObjectAnimation shieldFrames 8 0.1 w.

Definition PlayerExitShield (w : World) : World :=
  let w := log "<- EXIT <- Shield" w in
  set_shield (shieldColor (player w)) (shieldRadius (player w)) false w.

(** *** The part of the state table that a transition consults

    [InitPlayerFSM] stores, for each state, the four hooks and the list of
    valid successors.  A transition reads the entry hook, the exit hook and
    the successors; they are given first, the full table follows once the
    handlers (which call [ChangeState]) are defined. *)

Definition PlayerEntry (s : State) : option (World -> World) :=
  match s with
  | STATE_IDLE => Some PlayerEnterIdle
  | STATE_WALKING
  | STATE_MOVING_UP | STATE_MOVING_DOWN | STATE_MOVING_LEFT
  | STATE_MOVING_RIGHT | STATE_MOVING_UP_LEFT | STATE_MOVING_UP_RIGHT
  | STATE_MOVING_DOWN_LEFT | STATE_MOVING_DOWN_RIGHT => Some PlayerEnterWalking
  | STATE_SHIELD => Some PlayerEnterShield
  | STATE_ATTACKING => Some PlayerEnterAttacking
  | STATE_DEAD => Some PlayerEnterDie
  | STATE_RESPAWN => Some PlayerEnterRespawn
  | STATE_COLLISION => None
  end.

Definition PlayerExit (s : State) : option (World -> World) :=
  match s with
  | STATE_IDLE => Some PlayerExitIdle
  | STATE_WALKING
  | STATE_MOVING_UP | STATE_MOVING_DOWN | STATE_MOVING_LEFT
  | STATE_MOVING_RIGHT | STATE_MOVING_UP_LEFT | STATE_MOVING_UP_RIGHT
  | STATE_MOVING_DOWN_LEFT | STATE_MOVING_DOWN_RIGHT => Some PlayerExitWalking
  | STATE_SHIELD => Some PlayerExitShield
  | STATE_ATTACKING => Some PlayerExitAttacking
  | STATE_DEAD => Some PlayerExitDie
  | STATE_RESPAWN => Some PlayerExitRespawn
  | STATE_COLLISION => None
  end.

Definition idleValidTransitions : list State :=
  [STATE_WALKING; STATE_ATTACKING; STATE_SHIELD; STATE_DEAD; STATE_MOVING_UP;
   STATE_MOVING_RIGHT; STATE_MOVING_LEFT; STATE_MOVING_DOWN;
   STATE_MOVING_UP_LEFT; STATE_MOVING_UP_RIGHT; STATE_MOVING_DOWN_LEFT;
   STATE_MOVING_DOWN_RIGHT; STATE_SHIELD].

Definition walkingValidTransitions : list State :=
  [STATE_WALKING; STATE_ATTACKING; STATE_SHIELD; STATE_DEAD; STATE_MOVING_UP;
   STATE_MOVING_RIGHT; STATE_MOVING_LEFT; STATE_MOVING_DOWN;
   STATE_MOVING_UP_LEFT; STATE_MOVING_UP_RIGHT; STATE_MOVING_DOWN_LEFT;
   STATE_MOVING_DOWN_RIGHT].

Definition movingValidTransitions : list State :=
  [STATE_IDLE; STATE_ATTACKING; STATE_DEAD].

Definition PlayerNextStates (s : State) : list State :=
  match s with
  | STATE_IDLE => idleValidTransitions
  | STATE_WALKING => walkingValidTransitions
  | STATE_MOVING_UP | STATE_MOVING_DOWN | STATE_MOVING_LEFT
  | STATE_MOVING_RIGHT | STATE_MOVING_UP_LEFT | STATE_MOVING_UP_RIGHT
  | STATE_MOVING_DOWN_LEFT | STATE_MOVING_DOWN_RIGHT => movingValidTransitions
  | STATE_SHIELD => [STATE_IDLE; STATE_DEAD]
  | STATE_ATTACKING => [STATE_IDLE; STATE_DEAD]
  | STATE_DEAD => [STATE_RESPAWN]
  | STATE_RESPAWN => [STATE_IDLE]
  | STATE_COLLISION => []
  end.

(** Modelled from the spec: [TransitionAllowed(from, to)] holds when [to]
    is among the allowed destinations of [from]. *)
Definition TransitionAllowed (from to : State) : bool :=
  existsb (State_eqb to) (PlayerNextStates from).

(** Who asks for a transition: an event handler (validated against the
    table) or an update rule (forced). *)
Inductive Trigger : Set := External | Internal.

Definition runHook (h : option (World -> World)) (w : World) : World :=
  match h with
  | Some f => f w
  | None => w
  end.

(** Modelled from the spec: [ChangeState] is defined outside [player.c].
    Specification, 4.1 and 7: an externally triggered transition is
    rejected, with no effect, when the destination is not allowed; an
    internally forced one (resource depletion, animation completion, the
    death, respawn, idle chain) bypasses the check.  An accepted
    transition invokes the exit hook of the current state if present, sets
    [previousState] to the current state and [currentState] to the
    destination, then invokes the entry hook of the destination if
    present.  The calls made by the event handlers are [External], those
    made by the update functions are [Internal]. *)
Definition ChangeState (t : Trigger) (w : World) (newState : State) : World :=
  let accepted :=
    match t with
    | Internal => true
    | External => TransitionAllowed (currentState (obj w)) newState
    end in
  if accepted then
    let w := runHook (PlayerExit (currentState (obj w))) w in
    let w := set_previousState (currentState (obj w)) w in
    let w := set_currentState newState w in
    runHook (PlayerEntry newState) w
  else w.

(** *** Event handlers *)

Definition PlayerIdleHandleEvent (w : World) (event : Event) : World :=
  match event with
  | EVENT_MOVE => ChangeState External w STATE_WALKING
  | EVENT_ATTACK => ChangeState External w STATE_ATTACKING
  | EVENT_DEFEND => ChangeState External w STATE_SHIELD
  | EVENT_DIE => ChangeState External w STATE_DEAD
  | EVENT_NONE => set_previousState (currentState (obj w)) w
  | EVENT_RESPAWN | EVENT_COLLISION_START | EVENT_COLLISION_END
  | EVENT_COUNT => w
  | EVENT_MOVE_UP => ChangeState External w STATE_MOVING_UP
  | EVENT_MOVE_DOWN => ChangeState External w STATE_MOVING_DOWN
  | EVENT_MOVE_LEFT => ChangeState External w STATE_MOVING_LEFT
  | EVENT_MOVE_RIGHT => ChangeState External w STATE_MOVING_RIGHT
  | EVENT_MOVE_UP_RIGHT => ChangeState External w STATE_MOVING_UP_RIGHT
  | EVENT_MOVE_UP_LEFT => ChangeState External w STATE_MOVING_UP_LEFT
  | EVENT_MOVE_DOWN_RIGHT => ChangeState External w STATE_MOVING_DOWN_RIGHT
  | EVENT_MOVE_DOWN_LEFT => ChangeState External w STATE_MOVING_DOWN_LEFT
  | EVENT_SHIELD => ChangeState External w STATE_SHIELD
  end.

Definition PlayerWalkingHandleEvent (w : World) (event : Event) : World :=
  let w := log "Walking HandleEvent" w in
  match event with
  | EVENT_NONE => ChangeState External w STATE_IDLE
  | EVENT_ATTACK => ChangeState External w STATE_ATTACKING
  | EVENT_DIE => ChangeState External w STATE_DEAD
  | EVENT_MOVE | EVENT_DEFEND | EVENT_RESPAWN | EVENT_COLLISION_START
  | EVENT_COLLISION_END | EVENT_COUNT => w
  | EVENT_MOVE_UP => ChangeState External w STATE_MOVING_UP
  | EVENT_MOVE_DOWN => ChangeState External w STATE_MOVING_DOWN
  | EVENT_MOVE_LEFT => ChangeState External w STATE_MOVING_LEFT
  | EVENT_MOVE_RIGHT => ChangeState External w STATE_MOVING_RIGHT
  | EVENT_MOVE_UP_RIGHT => ChangeState External w STATE_MOVING_UP_RIGHT
  | EVENT_MOVE_UP_LEFT => ChangeState External w STATE_MOVING_UP_LEFT
  | EVENT_MOVE_DOWN_RIGHT => ChangeState External w STATE_MOVING_DOWN_RIGHT
  | EVENT_MOVE_DOWN_LEFT => ChangeState External w STATE_MOVING_DOWN_LEFT
  | EVENT_SHIELD => w
  end.

Definition PlayerAttackingHandleEvent (w : World) (event : Event) : World :=
  let w := log "Attacking HandleEvent" w in
  match event with
  | EVENT_NONE => ChangeState External w STATE_IDLE
  | EVENT_DIE => ChangeState External w STATE_DEAD
  | EVENT_MOVE | EVENT_ATTACK | EVENT_DEFEND | EVENT_RESPAWN
  | EVENT_COLLISION_START | EVENT_COLLISION_END | EVENT_COUNT => w
  | EVENT_MOVE_UP | EVENT_MOVE_DOWN | EVENT_MOVE_LEFT | EVENT_MOVE_RIGHT
  | EVENT_MOVE_UP_RIGHT | EVENT_MOVE_UP_LEFT | EVENT_MOVE_DOWN_RIGHT
  | EVENT_MOVE_DOWN_LEFT | EVENT_SHIELD => w
  end.

Definition PlayerDieHandleEvent (w : World) (event : Event) : World :=
  log "Die HandleEvent" w.

(** The respawn handler prints the same text as the die handler. *)
Definition PlayerRespawnHandleEvent (w : World) (event : Event) : World :=
  log "Die HandleEvent" w.

Definition PlayerShieldHandleEvent (w : World) (event : Event) : World :=
  let w := log "Shield HandleEvent" w in
  match event with
  | EVENT_MOVE_UP | EVENT_MOVE_DOWN | EVENT_MOVE_LEFT | EVENT_MOVE_RIGHT
  | EVENT_MOVE_UP_LEFT | EVENT_MOVE_UP_RIGHT | EVENT_MOVE_DOWN_LEFT
  | EVENT_MOVE_DOWN_RIGHT => ChangeState External w STATE_IDLE
  | EVENT_DIE => ChangeState External w STATE_DEAD
  | _ => w
  end.

(** *** Movement *)

Definition PlayerMove (moveDirection : Vector2) (w : World) : World :=
  let p := position (obj w) in
  let w := set_position (mkVector2 (vx p + vx moveDirection)
                                   (vy p + vy moveDirection)) w in
  set_collider_p (position (obj w)) w.

(** The [switch] of [PlayerUpdateWalking] over the current state: the
    displacement, starting from [{0, 0}] ... *)
Definition moveDirectionOf (s : State) (moveSpeed : Q) : Vector2 :=
  match s with
  | STATE_MOVING_UP_RIGHT => mkVector2 (moveSpeed / 2.0) ((- moveSpeed) / 2.0)
  | STATE_MOVING_UP_LEFT =>
      mkVector2 ((- moveSpeed) / 2.0) ((- moveSpeed) / 2.0)
  | STATE_MOVING_DOWN_RIGHT => mkVector2 (moveSpeed / 2.0) (moveSpeed / 2.0)
  | STATE_MOVING_DOWN_LEFT => mkVector2 ((- moveSpeed) / 2.0) (moveSpeed / 2.0)
  | STATE_MOVING_UP => mkVector2 0 (- moveSpeed)
  | STATE_MOVING_DOWN => mkVector2 0 moveSpeed
  | STATE_MOVING_LEFT => mkVector2 (- moveSpeed) 0
  | STATE_MOVING_RIGHT => mkVector2 moveSpeed 0
  | _ => mkVector2 0 (- moveSpeed)
  end.

(** ... and the assignment to [lastDirection] made by the cardinal cases. *)
Definition recordDirection (s : State) (w : World) : World :=
  match s with
  | STATE_MOVING_UP => set_lastDirection STATE_MOVING_UP w
  | STATE_MOVING_DOWN => set_lastDirection STATE_MOVING_DOWN w
  | STATE_MOVING_LEFT => set_lastDirection STATE_MOVING_LEFT w
  | STATE_MOVING_RIGHT => set_lastDirection STATE_MOVING_RIGHT w
  | _ => w
  end.

Definition PLAYER_RADIUS : Q := 32.0.
Definition MOVE_STAMINA_COST : Q := 0.05.
Definition ATTACK_MANA_COST : Q := 1.0.
Definition REGEN_RATE : Q := 0.5.
Definition MAX_STAMINA : Q := 100.0.
Definition MAX_MANA : Q := 100.0.

(** The two consecutive [if]s applied to one coordinate. *)
Definition clampAxis (extent : Z) (c : Q) : Q :=
  let c := if Qltb c PLAYER_RADIUS then PLAYER_RADIUS else c in
  if Qltb (inject_Z extent - PLAYER_RADIUS) c
  then inject_Z extent - PLAYER_RADIUS else c.

Definition clampToScreen (w : World) : World :=
  let p := position (obj w) in
  let w := set_position (mkVector2 (clampAxis screenWidth (vx p)) (vy p)) w in
  let p := position (obj w) in
  set_position (mkVector2 (vx p) (clampAxis screenHeight (vy p))) w.

Definition fminf (a b : Q) : Q := if Qleb a b then a else b.

(** *** Per-tick updates *)

Definition PlayerUpdateIdle (w : World) : World :=
  let w :=
    set_stamina (fminf (stamina (player w) + REGEN_RATE) MAX_STAMINA) w in
  let w := set_mana (fminf (mana (player w) + REGEN_RATE) MAX_MANA) w in
  advanceAnimation w.

Definition PlayerUpdateWalking (w : World) : World :=
  let w := log "-> UPDATE -> Walking" w in
  let moveSpeed := speed (obj w) in
  let w := set_stamina (stamina (player w) - MOVE_STAMINA_COST) w in
  if Qleb (stamina (player w)) 0 then
    let w := set_stamina 0 w in
    ChangeState Internal w STATE_IDLE
  else
    let moveDirection := moveDirectionOf (currentState (obj w)) moveSpeed in
    let w := recordDirection (currentState (obj w)) w in
    let w := PlayerMove moveDirection w in
    let w := clampToScreen w in
    let w := set_collider_p (position (obj w)) w in
    let w := advanceAnimation w in
    let w := if Qleb (health (obj w)) 0
             then ChangeState Internal w STATE_DEAD else w in
    if (currentFrame (animation (obj w))
          >=? frameCount (animation (obj w)) - 1)%Z
    then ChangeState Internal w STATE_IDLE
    else w.

(** The movement block of [PlayerUpdateWalking] on its own, from the
    [switch] to [UpdateAnimation]: [w] is the world once the cost is
    deducted.  [PlayerUpdateWalking] runs exactly this block when stamina
    stays positive (lemma [PlayerUpdateWalking_moving]). *)
Definition walkingStride (w : World) : World :=
  let moveSpeed := speed (obj w) in
  let moveDirection := moveDirectionOf (currentState (obj w)) moveSpeed in
  let w := recordDirection (currentState (obj w)) w in
  let w := PlayerMove moveDirection w in
  let w := clampToScreen w in
  let w := set_collider_p (position (obj w)) w in
  advanceAnimation w.

Definition PlayerUpdateAttacking (w : World) : World :=
  let w := log "-> UPDATE -> Attacking" w in
  let w := set_mana (mana (player w) - ATTACK_MANA_COST) w in
  if Qleb (mana (player w)) 0 then
    let w := set_mana 0 w in
    ChangeState Internal w STATE_IDLE
  else advanceAnimation w.

Definition PlayerUpdateDie (w : World) : World :=
  let w := say "-> UPDATE -> Die" w in
  let w := advanceAnimation w in
  if (currentFrame (animation (obj w))
        >=? frameCount (animation (obj w)) - 1)%Z
  then
    let w := set_lives (lives (player w) - 1) w in
    if (lives (player w) >? 0)%Z then ChangeState Internal w STATE_RESPAWN
    else
      let w := set_position (spawnPoint (player w)) w in
      let w := set_lives 4 w in
      ChangeState Internal w STATE_IDLE
  else w.

Definition PlayerUpdateRespawn (w : World) : World :=
  let w := say "-> UPDATE -> Respawn" w in
  let w := advanceAnimation w in
  if (currentFrame (animation (obj w))
        >=? frameCount (animation (obj w)) - 1)%Z
  then ChangeState Internal w STATE_IDLE
  else w.

Definition PlayerUpdateShield (w : World) : World :=
  let w := log "-> UPDATE -> Shield" w in
  let w := advanceAnimation w in
  let w := set_stamina (stamina (player w) - 0.05) w in
  let w := if Qleb (stamina (player w)) 0
           then ChangeState Internal w STATE_IDLE else w in
  emit (Circle (int_of_float (vx (position (obj w))))
               (int_of_float (vy (position (obj w))))
               (shieldRadius (player w)) (shieldColor (player w))) w.

(** *** The state table and the two entry points of the game loop *)

Record StateConfig : Type := mkStateConfig {
  cfg_name : option string;
  HandleEvent : option (World -> Event -> World);
  Entry : option (World -> World);
  Update : option (World -> World);
  Exit : option (World -> World);
  nextStates : list State
}.

Definition EMPTY_STATE_CONFIG : StateConfig :=
  mkStateConfig None None None None None [].

Definition movingConfig (label : string) : StateConfig :=
  mkStateConfig (Some label) (Some PlayerWalkingHandleEvent)
    (Some PlayerEnterWalking) (Some PlayerUpdateWalking)
    (Some PlayerExitWalking) movingValidTransitions.

(** [InitPlayerFSM]: the content of [obj->stateConfigs]. *)
Definition InitPlayerFSM (s : State) : StateConfig :=
  match s with
  | STATE_IDLE =>
      mkStateConfig (Some "Player_Idle"%string) (Some PlayerIdleHandleEvent)
        (Some PlayerEnterIdle) (Some PlayerUpdateIdle) (Some PlayerExitIdle)
        idleValidTransitions
  | STATE_WALKING =>
      mkStateConfig (Some "Player_Walking"%string)
        (Some PlayerWalkingHandleEvent) (Some PlayerEnterWalking)
        (Some PlayerUpdateWalking) (Some PlayerExitWalking)
        walkingValidTransitions
  | STATE_MOVING_UP => movingConfig "Player_Moving_Up"
  | STATE_MOVING_DOWN => movingConfig "Player_Moving_Down"
  | STATE_MOVING_LEFT => movingConfig "Player_Moving_Left"
  | STATE_MOVING_RIGHT => movingConfig "Player_Moving_Right"
  | STATE_MOVING_UP_LEFT => movingConfig "Player_Moving_Up_Left"
  | STATE_MOVING_UP_RIGHT => movingConfig "Player_Moving_Up_Right"
  | STATE_MOVING_DOWN_LEFT => movingConfig "Player_Moving_Down_Left"
  | STATE_MOVING_DOWN_RIGHT => movingConfig "Player_Moving_Down_Right"
  | STATE_SHIELD =>
      mkStateConfig (Some "Player_Shield"%string)
        (Some PlayerShieldHandleEvent) (Some PlayerEnterShield)
        (Some PlayerUpdateShield) (Some PlayerExitShield)
        [STATE_IDLE; STATE_DEAD]
  | STATE_ATTACKING =>
      mkStateConfig (Some "Player_Attacking"%string)
        (Some PlayerAttackingHandleEvent) (Some PlayerEnterAttacking)
        (Some PlayerUpdateAttacking) (Some PlayerExitAttacking)
        [STATE_IDLE; STATE_DEAD]
  | STATE_DEAD =>
      mkStateConfig (Some "Player_Dead"%string) (Some PlayerDieHandleEvent)
        (Some PlayerEnterDie) (Some PlayerUpdateDie) (Some PlayerExitDie)
        [STATE_RESPAWN]
  | STATE_RESPAWN =>
      mkStateConfig (Some "Player_Respawn"%string)
        (Some PlayerRespawnHandleEvent) (Some PlayerEnterRespawn)
        (Some PlayerUpdateRespawn) (Some PlayerExitRespawn)
        [STATE_IDLE]
  | STATE_COLLISION => EMPTY_STATE_CONFIG
  end.

(** Modelled from the spec: the dispatcher is defined outside [player.c].
    [Dispatch(entity, event)] invokes the event handler of the current
    state; a state without a handler ignores the event. *)
Definition Dispatch (w : World) (event : Event) : World :=
  match HandleEvent (InitPlayerFSM (currentState (obj w))) with
  | Some handler => handler w event
  | None => w
  end.

(** Modelled from the spec: the per-tick driver is defined outside
    [player.c].  Once per simulation tick the update function of the
    current state runs. *)
Definition Tick (w : World) : World :=
  runHook (Update (InitPlayerFSM (currentState (obj w)))) w.

End Controller.

(** ** Reading the specification's reaction tables *)

(** What the specification promises for one (state, event) pair. *)
Inductive Reaction : Set :=
| GoesTo (s : State)      (* the state changes to [s] *)
| RecordsPrevious         (* previousState := currentState, nothing else *)
| Ignored.                (* the entity is left as it is *)

(** The IDLE line of the reaction table, as the specification words it. *)
Definition idleReaction (e : Event) : Reaction :=
  match e with
  | EVENT_MOVE => GoesTo STATE_WALKING
  | EVENT_MOVE_UP => GoesTo STATE_MOVING_UP
  | EVENT_MOVE_DOWN => GoesTo STATE_MOVING_DOWN
  | EVENT_MOVE_LEFT => GoesTo STATE_MOVING_LEFT
  | EVENT_MOVE_RIGHT => GoesTo STATE_MOVING_RIGHT
  | EVENT_MOVE_UP_LEFT => GoesTo STATE_MOVING_UP_LEFT
  | EVENT_MOVE_UP_RIGHT => GoesTo STATE_MOVING_UP_RIGHT
  | EVENT_MOVE_DOWN_LEFT => GoesTo STATE_MOVING_DOWN_LEFT
  | EVENT_MOVE_DOWN_RIGHT => GoesTo STATE_MOVING_DOWN_RIGHT
  | EVENT_ATTACK => GoesTo STATE_ATTACKING
  | EVENT_DEFEND | EVENT_SHIELD => GoesTo STATE_SHIELD
  | EVENT_DIE => GoesTo STATE_DEAD
  | EVENT_NONE => RecordsPrevious
  | EVENT_RESPAWN | EVENT_COLLISION_START | EVENT_COLLISION_END
  | EVENT_COUNT => Ignored
  end.

(** The SHIELD line of the reaction table. *)
Definition shieldReaction (e : Event) : Reaction :=
  match e with
  | EVENT_MOVE_UP | EVENT_MOVE_DOWN | EVENT_MOVE_LEFT | EVENT_MOVE_RIGHT
  | EVENT_MOVE_UP_LEFT | EVENT_MOVE_UP_RIGHT | EVENT_MOVE_DOWN_LEFT
  | EVENT_MOVE_DOWN_RIGHT => GoesTo STATE_IDLE
  | EVENT_DIE => GoesTo STATE_DEAD
  | _ => Ignored
  end.

(** [realises from r before after]: the step from [before] to [after],
    taken in state [from], is the one [r] describes.  For [Ignored] and
    [RecordsPrevious] the whole world is pinned down, console included when
    the handler prints nothing. *)
Definition realises (from : State) (r : Reaction) (before after : World)
    : Prop :=
  match r with
  | GoesTo s =>
      currentState (obj after) = s /\ previousState (obj after) = from
  | RecordsPrevious =>
      after = set_previousState (currentState (obj before)) before
      /\ currentState (obj after) = from
  | Ignored => player after = player before
  end.

(** ** Construction, runs and observations *)

(** Modelled from the spec: the animator is a collaborator ("advance by
    time, report current frame").  [stepAnimation dt] adds the frame time
    [dt]; when a frame has lasted its duration the cursor moves to the next
    frame, cyclically.  It instantiates [UpdateAnimation] in the examples;
    the theorems hold for every animator. *)
Definition stepAnimation (dt : Q) (a : Animation) : Animation :=
  let t := elapsedTime a + dt in
  if Qleb (frameDuration a) t
  then mkAnimation (frames a) (frameCount a)
         ((currentFrame a + 1) mod frameCount a)%Z (frameDuration a) 0
  else mkAnimation (frames a) (frameCount a) (currentFrame a)
         (frameDuration a) t.

(** [InitPlayer].  Modelled from the spec: [InitGameObject] is defined
    outside [player.c]; it is taken to store its arguments in the fields
    they name (position, velocity, state, collider, health), the last one,
    [2], being the speed.  [malloc] returns a record of unknown content,
    here [heap]: the fields that nothing assigns keep that content. *)
Definition InitPlayer (screenWidth screenHeight : Z) (rand : nat -> Z)
    (who : string) (heap : Player) : World :=
  let centre := screenCentre screenWidth screenHeight in
  let g := mkGameObject who centre (mkVector2 0 0)
             (previousState (base heap)) STATE_IDLE
             (lastDirection (base heap)) (mkCircle centre 10) 100 2
             (animation (base heap)) in
  let p := mkPlayer g 100.0 100.0 4 (spawnPoint heap) (shieldColor heap)
             (shieldRadius heap) (shieldActive heap) in
  let w := mkWorld p [] O in
  if State_eqb (currentState (obj w)) STATE_IDLE
  then PlayerEnterIdle rand w else w.

(** The worlds a game can be in: built by [InitPlayer], then driven by
    events and ticks in any order. *)
Inductive reachable (screenWidth screenHeight : Z) (rand : nat -> Z)
    (UpdateAnimation : Animation -> Animation) : World -> Prop :=
| reach_init who heap :
    reachable screenWidth screenHeight rand UpdateAnimation
      (InitPlayer screenWidth screenHeight rand who heap)
| reach_dispatch w e :
    reachable screenWidth screenHeight rand UpdateAnimation w ->
    e <> EVENT_COUNT ->
    reachable screenWidth screenHeight rand UpdateAnimation
      (Dispatch screenWidth screenHeight rand UpdateAnimation w e)
| reach_tick w :
    reachable screenWidth screenHeight rand UpdateAnimation w ->
    reachable screenWidth screenHeight rand UpdateAnimation
      (Tick screenWidth screenHeight rand UpdateAnimation w).

(** [n] consecutive ticks. *)
Fixpoint ticks (screenWidth screenHeight : Z) (rand : nat -> Z)
    (UpdateAnimation : Animation -> Animation) (n : nat) (w : World) : World :=
  match n with
  | O => w
  | S n' =>
      ticks screenWidth screenHeight rand UpdateAnimation n'
        (Tick screenWidth screenHeight rand UpdateAnimation w)
  end.

(** One round of held input: the event is offered, then the tick runs. *)
Definition round (screenWidth screenHeight : Z) (rand : nat -> Z)
    (UpdateAnimation : Animation -> Animation) (e : Event) (w : World)
    : World :=
  Tick screenWidth screenHeight rand UpdateAnimation
    (Dispatch screenWidth screenHeight rand UpdateAnimation w e).

Fixpoint rounds (screenWidth screenHeight : Z) (rand : nat -> Z)
    (UpdateAnimation : Animation -> Animation) (e : Event) (n : nat)
    (w : World) : World :=
  match n with
  | O => w
  | S n' =>
      round screenWidth screenHeight rand UpdateAnimation e
        (rounds screenWidth screenHeight rand UpdateAnimation e n' w)
  end.

(** While the "up" input is held from a fresh player, after [k] rounds:
    the player is idle or moving up, alive, and has spent [k] times the
    movement cost. *)
Definition heldUp (k : nat) (w : World) : Prop :=
  (currentState (obj w) = STATE_IDLE \/ currentState (obj w) = STATE_MOVING_UP)
  /\ 0 < health (obj w)
  /\ stamina (player w) == 100 - inject_Z (Z.of_nat k) * MOVE_STAMINA_COST.

(** The states whose update function is [PlayerUpdateWalking]. *)
Definition usesWalkingUpdate (s : State) : bool :=
  match s with
  | STATE_WALKING
  | STATE_MOVING_UP | STATE_MOVING_DOWN | STATE_MOVING_LEFT
  | STATE_MOVING_RIGHT | STATE_MOVING_UP_LEFT | STATE_MOVING_UP_RIGHT
  | STATE_MOVING_DOWN_LEFT | STATE_MOVING_DOWN_RIGHT => true
  | _ => false
  end.

Definition isCardinal (s : State) : bool :=
  match s with
  | STATE_MOVING_UP | STATE_MOVING_DOWN | STATE_MOVING_LEFT
  | STATE_MOVING_RIGHT => true
  | _ => false
  end.

Definition isDiagonal (s : State) : bool :=
  match s with
  | STATE_MOVING_UP_LEFT | STATE_MOVING_UP_RIGHT | STATE_MOVING_DOWN_LEFT
  | STATE_MOVING_DOWN_RIGHT => true
  | _ => false
  end.

(** The heading of a directional state as the specification describes it:
    a sign per axis, [x] growing to the right and [y] growing downwards. *)
Definition heading (s : State) : Z * Z :=
  match s with
  | STATE_MOVING_UP => (0, -1)
  | STATE_MOVING_DOWN => (0, 1)
  | STATE_MOVING_LEFT => (-1, 0)
  | STATE_MOVING_RIGHT => (1, 0)
  | STATE_MOVING_UP_LEFT => (-1, -1)
  | STATE_MOVING_UP_RIGHT => (1, -1)
  | STATE_MOVING_DOWN_LEFT => (-1, 1)
  | STATE_MOVING_DOWN_RIGHT => (1, 1)
  | _ => (0, 0)
  end%Z.

(** The direction vector in the specification's words: full speed along
    the heading for a cardinal state, half the speed on each axis for a
    diagonal one. *)
Definition specDirection (s : State) (moveSpeed : Q) : Q * Q :=
  let '(hx, hy) := heading s in
  if isCardinal s
  then (inject_Z hx * moveSpeed, inject_Z hy * moveSpeed)
  else (inject_Z hx * (moveSpeed / 2), inject_Z hy * (moveSpeed / 2)).

(** "Full speed along exactly one axis, 0 along the other" and "exactly
    half the speed on each of the two axes". *)
Definition alongOneAxis (d : Vector2) (moveSpeed : Q) : Prop :=
  (vx d == 0 /\ (vy d == moveSpeed \/ vy d == - moveSpeed))
  \/ (vy d == 0 /\ (vx d == moveSpeed \/ vx d == - moveSpeed)).

Definition halfOnBothAxes (d : Vector2) (moveSpeed : Q) : Prop :=
  (vx d == moveSpeed / 2 \/ vx d == - (moveSpeed / 2))
  /\ (vy d == moveSpeed / 2 \/ vy d == - (moveSpeed / 2)).

(** The position lies inside the screen, one radius away from each edge. *)
Definition withinScreen (screenWidth screenHeight : Z) (p : Vector2) : Prop :=
  PLAYER_RADIUS <= vx p <= inject_Z screenWidth - PLAYER_RADIUS /\
  PLAYER_RADIUS <= vy p <= inject_Z screenHeight - PLAYER_RADIUS.

(** The state every entry into RESPAWN produces: the position is the
    middle of the screen, half the width and half the height, the three
    pools are full and the respawn sequence is installed at frame 0. *)
Definition refilledAtCentre (screenWidth screenHeight : Z) (w : World) : Prop :=
  (vx (position (obj w)) == inject_Z screenWidth / 2
   /\ vy (position (obj w)) == inject_Z screenHeight / 2)
  /\ health (obj w) = 100
  /\ stamina (player w) = 100
  /\ mana (player w) = 100
  /\ animation (obj w) = mkAnimation (firstn 8 respawnFrames) 8 0 0.1 0.

(** The line printed by [PlayerExitShield], and how often a piece of
    output contains it. *)
Definition isShieldExit (o : Output) : bool :=
  match o with
  | Line _ what => String.eqb what "<- EXIT <- Shield"
  | _ => false
  end.

Definition shieldExits (out : list Output) : nat :=
  List.length (filter isShieldExit out).

(** [quiet w w']: going from [w] to [w'] printed no shield-exit line and
    left the shield flag alone. *)
Definition quiet (w w' : World) : Prop :=
  shieldActive (player w') = shieldActive (player w)
  /\ exists out, console w' = console w ++ out /\ shieldExits out = O.

(** [calm w w']: moreover [w'] is not shielding. *)
Definition calm (w w' : World) : Prop :=
  quiet w w' /\ currentState (obj w') <> STATE_SHIELD.

(** The parts of an update that precede its tests print their own lines,
    never touch the shield flag and never change the state. *)
Definition sameShield (v v' : World) : Prop :=
  shieldActive (player v') = shieldActive (player v)
  /\ currentState (obj v') = currentState (obj v)
  /\ exists out, console v' = console v ++ out /\ shieldExits out = O.

(** The states an update function forces. *)
Definition forcedTarget (s : State) : Prop :=
  s = STATE_IDLE \/ s = STATE_DEAD \/ s = STATE_RESPAWN.

(** The animation installed by the entry hook of IDLE for the [n]-th
    call of [rand]. *)
Definition idleSequences : list (list Rectangle) :=
  [idle1; idle2; idle3; firstn 8 idle4; firstn 8 idle5; firstn 8 idle6;
   firstn 8 idle7].

Definition isIdleAnimation (a : Animation) : Prop :=
  In (frames a) idleSequences /\ frameCount a = 8%Z /\ currentFrame a = 0%Z
  /\ frameDuration a = 0.2 /\ elapsedTime a = 0.

(** The table a value of [randomChoice] selects in
    [SelectRandomIdleAnimation], and the table a last direction selects
    in [PlayerEnterAttacking]. *)
Definition idleChoice (randomChoice : Z) : list Rectangle :=
  match randomChoice with
  | 1%Z => idle1
  | 2%Z => idle2
  | 3%Z => idle3
  | 4%Z => idle4
  | 5%Z => idle5
  | 6%Z => idle6
  | 7%Z => idle7
  | _ => idle1
  end.

Definition attackChoice (facing : State) : list Rectangle :=
  match facing with
  | STATE_MOVING_UP => attackUp
  | STATE_MOVING_DOWN => attackDown
  | STATE_MOVING_LEFT => attackLeft
  | STATE_MOVING_RIGHT => attackRight
  | _ => attackDown
  end.

(** *** A concrete player for the examples *)

Definition demoObject (s : State) (pos : Vector2) (hp : Q) (cursor : Z)
    : GameObject :=
  mkGameObject "hero" pos (mkVector2 0 0) STATE_IDLE s STATE_MOVING_DOWN
    (mkCircle pos 10) hp 2
    (mkAnimation (walkFrames s) 9 cursor 0.1 0).

Definition demoWorld (s : State) (pos : Vector2) (hp st mn : Q) (lv : Z)
    (cursor : Z) : World :=
  mkWorld (mkPlayer (demoObject s pos hp cursor) st mn lv (mkVector2 400 300)
             (mkColor 0 255 128 128) 90.0 true)
          [] O.

Definition demoRand (n : nat) : Z := Z.of_nat n.

(** A frame time of a tenth of a second. *)
Definition demoAnimator : Animation -> Animation := stepAnimation 0.1.

(** An 800 by 600 screen. *)
Definition demoTick : World -> World := Tick 800 600 demoRand demoAnimator.

Definition demoDispatch : World -> Event -> World :=
  Dispatch 800 600 demoRand demoAnimator.

Definition demoTicks : nat -> World -> World :=
  ticks 800 600 demoRand demoAnimator.

(** Idle at the centre, everything full. *)
Definition demoIdle : World :=
  demoWorld STATE_IDLE (mkVector2 400 300) 100 100.0 100.0 4 0.

(** Attacking with half a point of mana left. *)
Definition demoAttacker : World :=
  demoWorld STATE_ATTACKING (mkVector2 400 300) 100 100.0 0.5 4 0.

(** Moving up with less stamina than one step costs, the walk on frame 3. *)
Definition demoTired : World :=
  demoWorld STATE_MOVING_UP (mkVector2 400 300) 100 0.03 100.0 4 3.

(** Moving left with no health, one frame before the end of the walk. *)
Definition demoDying : World :=
  demoWorld STATE_MOVING_LEFT (mkVector2 400 300) 0 100.0 100.0 4 7.

(** Moving right, ten pixels from the left edge. *)
Definition demoAtEdge : World :=
  demoWorld STATE_MOVING_RIGHT (mkVector2 10 100) 100 100.0 100.0 4 0.

(** Moving up and to the left from the centre. *)
Definition demoDiagonal : World :=
  demoWorld STATE_MOVING_UP_LEFT (mkVector2 400 300) 100 100.0 100.0 4 0.

(** Killed while idle; nine ticks later the death sequence is one step
    away from its last frame. *)
Definition demoDead : World := demoDispatch demoIdle EVENT_DIE.

Definition demoLastBreath : World := demoTicks 9 demoDead.

(** The same with a single life left. *)
Definition demoLastLife : World := set_lives 1 demoLastBreath.

(** Attacking with full mana, after an "attack" event received while
    idle. *)
Definition demoStriking : World := demoDispatch demoIdle EVENT_ATTACK.

(** Shielding, after a "defend" event received while idle. *)
Definition demoShielded : World := demoDispatch demoIdle EVENT_DEFEND.


(** ** Further observations

    Definitions used by the properties of the handlers, hooks and updates
    stated after those of the specification. *)




(** [PlayerAttackingHandleEvent]. *)
Definition attackingReaction (e : Event) : Reaction :=
  match e with
  | EVENT_NONE => GoesTo STATE_IDLE
  | EVENT_DIE => GoesTo STATE_DEAD
  | _ => Ignored
  end.

Definition isDirectional (s : State) : bool := isCardinal s || isDiagonal s.

(** The states whose handler reacts to DIE. *)
Definition canDie (s : State) : bool :=
  match s with
  | STATE_DEAD | STATE_RESPAWN | STATE_COLLISION => false
  | _ => true
  end.

(** The states whose handler ignores every event. *)
Definition deafToEvents (s : State) : bool :=
  match s with
  | STATE_DEAD | STATE_RESPAWN | STATE_COLLISION => true
  | _ => false
  end.

(** Where the player is and what it has: what an event never touches. *)
Definition body (w : World)
    : Vector2 * Vector2 * c2Circle * State * Q * Q * Q * Q * Z * Vector2 :=
  (position (obj w), velocity (obj w), collider (obj w),
   lastDirection (obj w), speed (obj w), health (obj w),
   stamina (player w), mana (player w), lives (player w),
   spawnPoint (player w)).

(** The shield flag says whether the player is in SHIELD. *)
Definition shieldFlagTracks (w : World) : Prop :=
  shieldActive (player w) = State_eqb (currentState (obj w)) STATE_SHIELD.

(** Draw commands among the output. *)
Definition isCircle (o : Output) : bool :=
  match o with
  | Circle _ _ _ _ => true
  | _ => false
  end.

Definition circles (out : list Output) : nat :=
  List.length (filter isCircle out).

(** [drawsNothing w w']: what was sent between [w] and [w'] holds no
    draw command. *)
Definition drawsNothing (w w' : World) : Prop :=
  exists out, console w' = console w ++ out /\ circles out = O.

(** The circle a SHIELD tick hands to the renderer for the world [w]. *)
Definition shieldCircle (w : World) : Output :=
  Circle (int_of_float (vx (position (obj w))))
         (int_of_float (vy (position (obj w))))
         (shieldRadius (player w)) (shieldColor (player w)).

(** An installed sequence is well formed: as many frames as the count
    says, at least one, and the cursor on the first. *)
Definition freshAnimation (a : Animation) : Prop :=
  Z.of_nat (List.length (frames a)) = frameCount a
  /\ (0 < frameCount a)%Z
  /\ currentFrame a = 0%Z
  /\ elapsedTime a = 0.

(** The attack sequence for a facing, as [PlayerEnterAttacking] installs
    it. *)
Definition attackAnimation (facing : State) : Animation :=
  mkAnimation (firstn 6 (attackChoice facing)) 6 0 0.1 0.

(** The pools of a world are where a game keeps them. *)
Definition poolsInRange (w : World) : Prop :=
  0 <= mana (player w) <= 100
  /\ stamina (player w) <= 100
  /\ health (obj w) == 100.

(** [n] times "raise the shield, then tick". *)
Definition shieldRounds (screenWidth screenHeight : Z) (rand : nat -> Z)
    (UpdateAnimation : Animation -> Animation) : nat -> World -> World :=
  rounds screenWidth screenHeight rand UpdateAnimation EVENT_SHIELD.

(** Further example worlds: walking without a direction, respawning, and
    idle with an empty stamina pool. *)
Definition demoWalking : World := demoDispatch demoIdle EVENT_MOVE.

Definition demoMovingLeft : World := demoDispatch demoIdle EVENT_MOVE_LEFT.

Definition demoRespawning : World := demoTick demoLastBreath.

Definition demoSpent : World := set_stamina 0 demoIdle.

(** Moving left in good health, one frame before the end of the walk. *)
Definition demoLastStep : World :=
  demoWorld STATE_MOVING_LEFT (mkVector2 400 300) 100 100.0 100.0 4 7.

(** A game just started on the example screen. *)
Definition demoNewGame : World :=
  InitPlayer 800 600 demoRand "hero" (player demoIdle).
(** ** Basic facts about the comparisons *)

Lemma State_eqb_eq (a b : State) : State_eqb a b = true <-> a = b.
Proof.
  unfold State_eqb. rewrite Z.eqb_eq.
  split; [|intros ->; reflexivity].
  destruct a, b; cbn; intro E; try reflexivity; discriminate E.
Qed.

Lemma Qleb_le (a b : Q) : Qleb a b = true <-> a <= b.
Proof. apply Qle_bool_iff. Qed.

Lemma Qleb_gt (a b : Q) : Qleb a b = false <-> b < a.
Proof.
  unfold Qleb. split; intro H.
  - apply Qnot_le_lt. intro L. apply Qle_bool_iff in L. congruence.
  - destruct (Qle_bool a b) eqn:E; [|reflexivity].
    apply Qle_bool_iff in E. exfalso. apply (Qlt_not_le _ _ H E).
Qed.

Lemma Qltb_lt (a b : Q) : Qltb a b = true <-> a < b.
Proof.
  unfold Qltb. rewrite negb_true_iff. apply Qleb_gt.
Qed.

Lemma Qltb_ge (a b : Q) : Qltb a b = false <-> b <= a.
Proof.
  unfold Qltb. rewrite negb_false_iff. apply Qleb_le.
Qed.

(** ** Proof support *)

(** Exposes every field of a world, so that the hooks compute. *)
Ltac open_world w :=
  let g := fresh "g" in
  destruct w as [[g st mn lv sp sc sr sa] con rc];
  destruct g as [nm pos vel prev cur dir col hp spd anim];
  simpl in *.

(** The two hooks that branch on data install one animation whatever the
    branch; only the table differs. *)
Lemma SelectRandomIdleAnimation_eq (rand : nat -> Z) (w : World) :
  SelectRandomIdleAnimation rand w =
  InitGameObjectAnimation
    (idleChoice (Z.rem (rand (randCalls w)) 7 + 1)) 8 0.2
    (mkWorld (player w) (console w) (S (randCalls w))).
Proof.
  unfold SelectRandomIdleAnimation, idleChoice.
  destruct (Z.rem (rand (randCalls w)) 7 + 1)%Z as [|p|p]; try reflexivity.
  do 3 (try destruct p as [p|p|]; try reflexivity).
Qed.

Lemma PlayerEnterAttacking_eq (w : World) :
  PlayerEnterAttacking w =
  InitGameObjectAnimation (attackChoice (lastDirection (obj w))) 6 0.1
    (log "-> ENTER -> Attacking" w).
Proof.
  unfold PlayerEnterAttacking, attackChoice.
  destruct w as [[g ? ? ? ? ? ? ?] ? ?]; destruct g as [? ? ? ? ? d ? ? ? ?].
  destruct d; reflexivity.
Qed.

Lemma idleChoice_listed (z : Z) : In (firstn 8 (idleChoice z)) idleSequences.
Proof.
  unfold idleChoice, idleSequences.
  destruct z as [|p|p]; try (left; reflexivity).
  do 3 (try destruct p as [p|p|]; try (left; reflexivity)).
  all: cbn [In]; tauto.
Qed.

(** Evaluates the program as far as the data allows.  The arithmetic on
    rationals, the sprite tables and the two data-dependent selections are
    kept folded. *)
Ltac run1 :=
  cbv beta iota zeta delta
    [ obj upd_base set_position set_previousState set_currentState
      set_lastDirection set_collider_p set_health set_animation set_stamina
      set_mana set_lives set_shield emit log say InitGameObjectAnimation
      advanceAnimation
      PlayerEnterIdle PlayerExitIdle PlayerEnterWalking PlayerExitWalking
      PlayerExitAttacking PlayerEnterDie PlayerExitDie
      PlayerEnterRespawn PlayerExitRespawn PlayerEnterShield PlayerExitShield
      PlayerEntry PlayerExit PlayerNextStates TransitionAllowed
      idleValidTransitions walkingValidTransitions movingValidTransitions
      runHook ChangeState PlayerMove clampToScreen recordDirection
      PlayerIdleHandleEvent PlayerWalkingHandleEvent
      PlayerAttackingHandleEvent PlayerDieHandleEvent
      PlayerRespawnHandleEvent PlayerShieldHandleEvent
      PlayerUpdateIdle PlayerUpdateWalking PlayerUpdateAttacking
      PlayerUpdateDie PlayerUpdateRespawn PlayerUpdateShield
      InitPlayerFSM movingConfig EMPTY_STATE_CONFIG Dispatch Tick
      HandleEvent Entry Update Exit nextStates cfg_name
      name position velocity previousState currentState lastDirection
      collider health speed animation
      base stamina mana lives spawnPoint shieldColor shieldRadius shieldActive
      player console randCalls
      frames frameCount currentFrame frameDuration elapsedTime
      c2_p c2_r vx vy
      State_eqb State_index Z.eqb Pos.eqb existsb negb andb orb
      usesWalkingUpdate isCardinal isDiagonal ].

Ltac run :=
  run1;
  repeat (progress (rewrite ?SelectRandomIdleAnimation_eq,
                            ?PlayerEnterAttacking_eq); run1).

(** The same for an update function, with the transitions it requests left
    folded: what a transition does is stated once, by the lemmas on
    [ChangeState] below. *)
Ltac run_update :=
  cbv beta iota zeta delta
    [ obj upd_base set_position set_previousState set_currentState
      set_lastDirection set_collider_p set_health set_animation set_stamina
      set_mana set_lives set_shield emit log say
      advanceAnimation runHook PlayerMove clampToScreen recordDirection
      walkingStride
      PlayerUpdateIdle PlayerUpdateWalking PlayerUpdateAttacking
      PlayerUpdateDie PlayerUpdateRespawn PlayerUpdateShield
      InitPlayerFSM movingConfig EMPTY_STATE_CONFIG Tick
      HandleEvent Entry Update Exit nextStates cfg_name
      name position velocity previousState currentState lastDirection
      collider health speed animation
      base stamina mana lives spawnPoint shieldColor shieldRadius shieldActive
      player console randCalls
      frames frameCount currentFrame frameDuration elapsedTime
      c2_p c2_r vx vy
      State_eqb State_index Z.eqb Pos.eqb existsb negb andb orb
      usesWalkingUpdate isCardinal isDiagonal ].

Section Transitions.

Variables screenWidth screenHeight : Z.
Variable rand : nat -> Z.

Local Abbreviation changeState :=
  (ChangeState screenWidth screenHeight rand).
Local Abbreviation entryOf := (PlayerEntry screenWidth screenHeight rand).

(** ** Hooks and transitions *)

(** An exit hook prints and, for SHIELD, clears the shield flag; it writes
    nothing else. *)
Lemma exit_hook_frame (s : State) (w : World) :
  let w' := runHook (PlayerExit s) w in
  base (player w') = base (player w)
  /\ stamina (player w') = stamina (player w)
  /\ mana (player w') = mana (player w)
  /\ lives (player w') = lives (player w)
  /\ spawnPoint (player w') = spawnPoint (player w)
  /\ randCalls w' = randCalls w.
Proof.
  open_world w. destruct s; run; repeat split.
Qed.

(** An entry hook installs an animation (and, for SHIELD, the shield);
    it never writes the states, the last direction, the collider, the
    lives or the spawn point. *)
Lemma entry_hook_keeps (s : State) (w : World) :
  let w' := runHook (entryOf s) w in
  currentState (obj w') = currentState (obj w)
  /\ previousState (obj w') = previousState (obj w)
  /\ lastDirection (obj w') = lastDirection (obj w)
  /\ collider (obj w') = collider (obj w)
  /\ lives (player w') = lives (player w)
  /\ spawnPoint (player w') = spawnPoint (player w).
Proof.
  destruct s;
    try (open_world w; run; repeat split; fail).
  unfold runHook, PlayerEntry, PlayerEnterIdle.
  destruct (negb _ && _); open_world w; run; repeat split.
Qed.

(** Only the entry hook of RESPAWN writes the position and the pools. *)
Lemma entry_hook_frame (s : State) (w : World) :
  s <> STATE_RESPAWN ->
  let w' := runHook (entryOf s) w in
  position (obj w') = position (obj w)
  /\ health (obj w') = health (obj w)
  /\ stamina (player w') = stamina (player w)
  /\ mana (player w') = mana (player w).
Proof.
  intro Hs.
  destruct s; try congruence;
    try (open_world w; run; repeat split; fail).
  unfold runHook, PlayerEntry, PlayerEnterIdle.
  destruct (negb _ && _); open_world w; run; repeat split.
Qed.

(** The shape of an accepted transition. *)
Lemma ChangeState_Internal_eq (w : World) (s : State) :
  changeState Internal w s =
  let left := runHook (PlayerExit (currentState (obj w))) w in
  runHook (entryOf s)
    (set_currentState s (set_previousState (currentState (obj left)) left)).
Proof. reflexivity. Qed.

Lemma ChangeState_External_eq (w : World) (s : State) :
  changeState External w s =
  if TransitionAllowed (currentState (obj w)) s
  then changeState Internal w s else w.
Proof. reflexivity. Qed.

(** A forced transition always lands in the requested state and remembers
    the state it left. *)
Lemma ChangeState_Internal_control (w : World) (s : State) :
  currentState (obj (changeState Internal w s)) = s
  /\ previousState (obj (changeState Internal w s)) = currentState (obj w).
Proof.
  rewrite ChangeState_Internal_eq. cbv zeta.
  match goal with
  | |- context [runHook (entryOf s) ?v] =>
      destruct (entry_hook_keeps s v) as (-> & -> & _)
  end.
  destruct (exit_hook_frame (currentState (obj w)) w) as (Hb & _).
  unfold obj in *. cbn. rewrite Hb. split; reflexivity.
Qed.

(** No transition writes the last direction, the collider, the lives or
    the spawn point. *)
Lemma ChangeState_keeps (t : Trigger) (w : World) (s : State) :
  lastDirection (obj (changeState t w s)) = lastDirection (obj w)
  /\ collider (obj (changeState t w s)) = collider (obj w)
  /\ lives (player (changeState t w s)) = lives (player w)
  /\ spawnPoint (player (changeState t w s)) = spawnPoint (player w).
Proof.
  assert (forced :
    lastDirection (obj (changeState Internal w s)) = lastDirection (obj w)
    /\ collider (obj (changeState Internal w s)) = collider (obj w)
    /\ lives (player (changeState Internal w s)) = lives (player w)
    /\ spawnPoint (player (changeState Internal w s)) = spawnPoint (player w)).
  { rewrite ChangeState_Internal_eq. cbv zeta.
    match goal with
    | |- context [runHook (entryOf s) ?v] =>
        destruct (entry_hook_keeps s v) as (_ & _ & -> & -> & -> & ->)
    end.
    destruct (exit_hook_frame (currentState (obj w)) w)
      as (Hb & _ & _ & Hl & Hsp & _).
    unfold obj in *. cbn. rewrite Hb, Hl, Hsp. repeat split. }
  destruct t; [|exact forced].
  rewrite ChangeState_External_eq.
  destruct (TransitionAllowed _ _); [exact forced | repeat split].
Qed.

Lemma ChangeState_lives (t : Trigger) (w : World) (s : State) :
  lives (player (changeState t w s)) = lives (player w).
Proof. apply ChangeState_keeps. Qed.

(** A transition to a state other than RESPAWN leaves the position and
    the three pools as they were. *)
Lemma ChangeState_frame (t : Trigger) (w : World) (s : State) :
  s <> STATE_RESPAWN ->
  position (obj (changeState t w s)) = position (obj w)
  /\ health (obj (changeState t w s)) = health (obj w)
  /\ stamina (player (changeState t w s)) = stamina (player w)
  /\ mana (player (changeState t w s)) = mana (player w).
Proof.
  intro Hs.
  assert (forced :
    position (obj (changeState Internal w s)) = position (obj w)
    /\ health (obj (changeState Internal w s)) = health (obj w)
    /\ stamina (player (changeState Internal w s)) = stamina (player w)
    /\ mana (player (changeState Internal w s)) = mana (player w)).
  { rewrite ChangeState_Internal_eq. cbv zeta.
    match goal with
    | |- context [runHook (entryOf s) ?v] =>
        destruct (entry_hook_frame s v Hs) as (-> & -> & -> & ->)
    end.
    destruct (exit_hook_frame (currentState (obj w)) w)
      as (Hb & Hst & Hmn & _).
    unfold obj in *. cbn. rewrite Hb, Hst, Hmn. repeat split. }
  destruct t; [|exact forced].
  rewrite ChangeState_External_eq.
  destruct (TransitionAllowed _ _); [exact forced | repeat split].
Qed.

Lemma ChangeState_frame_idle (t : Trigger) (w : World) :
  position (obj (changeState t w STATE_IDLE)) = position (obj w)
  /\ health (obj (changeState t w STATE_IDLE)) = health (obj w)
  /\ stamina (player (changeState t w STATE_IDLE)) = stamina (player w)
  /\ mana (player (changeState t w STATE_IDLE)) = mana (player w).
Proof. apply ChangeState_frame. discriminate. Qed.

Lemma ChangeState_frame_dead (t : Trigger) (w : World) :
  position (obj (changeState t w STATE_DEAD)) = position (obj w)
  /\ health (obj (changeState t w STATE_DEAD)) = health (obj w)
  /\ stamina (player (changeState t w STATE_DEAD)) = stamina (player w)
  /\ mana (player (changeState t w STATE_DEAD)) = mana (player w).
Proof. apply ChangeState_frame. discriminate. Qed.

(** Entering IDLE from another state installs one of the idle sequences,
    entering DEAD the death sequence, each at frame 0. *)
Lemma ChangeState_Internal_idle_animation (w : World) :
  currentState (obj w) <> STATE_IDLE ->
  isIdleAnimation (animation (obj (changeState Internal w STATE_IDLE))).
Proof.
  intro Hs. unfold isIdleAnimation. open_world w.
  destruct cur; try congruence; run;
    (repeat split; try reflexivity; apply idleChoice_listed).
Qed.

Lemma ChangeState_Internal_dead_animation (w : World) :
  animation (obj (changeState Internal w STATE_DEAD))
  = mkAnimation (firstn 6 deadFrames) 6 0 0.2 0.
Proof.
  open_world w. destruct cur; run; reflexivity.
Qed.

End Transitions.

(** ** The update functions, branch by branch *)

Section Steps.

Variables screenWidth screenHeight : Z.
Variable rand : nat -> Z.
Variable UpdateAnimation : Animation -> Animation.

Local Abbreviation tick :=
  (Tick screenWidth screenHeight rand UpdateAnimation).
Local Abbreviation changeState :=
  (ChangeState screenWidth screenHeight rand).

(** The hooks and successors a transition consults are those of the
    state table. *)
Lemma InitPlayerFSM_coherent (s : State) :
  let cfg := InitPlayerFSM screenWidth screenHeight rand UpdateAnimation s in
  Entry cfg = PlayerEntry screenWidth screenHeight rand s
  /\ Exit cfg = PlayerExit s
  /\ nextStates cfg = PlayerNextStates s.
Proof. destruct s; repeat split. Qed.

Lemma Tick_walking (w : World) :
  usesWalkingUpdate (currentState (obj w)) = true ->
  tick w = PlayerUpdateWalking screenWidth screenHeight rand UpdateAnimation w.
Proof.
  unfold Tick. destruct (currentState (obj w)); try discriminate; reflexivity.
Qed.

Lemma Tick_attacking (w : World) :
  currentState (obj w) = STATE_ATTACKING ->
  tick w
  = PlayerUpdateAttacking screenWidth screenHeight rand UpdateAnimation w.
Proof. unfold Tick. intros ->. reflexivity. Qed.

Lemma Tick_dead (w : World) :
  currentState (obj w) = STATE_DEAD ->
  tick w = PlayerUpdateDie screenWidth screenHeight rand UpdateAnimation w.
Proof. unfold Tick. intros ->. reflexivity. Qed.

Lemma Tick_shield (w : World) :
  currentState (obj w) = STATE_SHIELD ->
  tick w = PlayerUpdateShield screenWidth screenHeight rand UpdateAnimation w.
Proof. unfold Tick. intros ->. reflexivity. Qed.

Lemma Tick_idle (w : World) :
  currentState (obj w) = STATE_IDLE ->
  tick w = PlayerUpdateIdle UpdateAnimation w.
Proof. unfold Tick. intros ->. reflexivity. Qed.

Lemma Tick_respawn (w : World) :
  currentState (obj w) = STATE_RESPAWN ->
  tick w = PlayerUpdateRespawn screenWidth screenHeight rand UpdateAnimation w.
Proof. unfold Tick. intros ->. reflexivity. Qed.

Lemma Tick_collision (w : World) :
  currentState (obj w) = STATE_COLLISION -> tick w = w.
Proof. unfold Tick. intros ->. reflexivity. Qed.

Lemma PlayerUpdateAttacking_depleted (w : World) :
  mana (player w) - ATTACK_MANA_COST <= 0 ->
  PlayerUpdateAttacking screenWidth screenHeight rand UpdateAnimation w
  = changeState Internal
      (set_mana 0 (log "-> UPDATE -> Attacking" w)) STATE_IDLE.
Proof.
  intro H. apply Qleb_le in H. open_world w.
  run_update. rewrite H. reflexivity.
Qed.

Lemma PlayerUpdateAttacking_continues (w : World) :
  0 < mana (player w) - ATTACK_MANA_COST ->
  PlayerUpdateAttacking screenWidth screenHeight rand UpdateAnimation w
  = advanceAnimation UpdateAnimation
      (set_mana (mana (player w) - ATTACK_MANA_COST)
                (log "-> UPDATE -> Attacking" w)).
Proof.
  intro H. apply Qleb_gt in H. open_world w.
  run_update. rewrite H. reflexivity.
Qed.

Lemma PlayerUpdateWalking_depleted (w : World) :
  stamina (player w) - MOVE_STAMINA_COST <= 0 ->
  PlayerUpdateWalking screenWidth screenHeight rand UpdateAnimation w
  = changeState Internal
      (set_stamina 0 (log "-> UPDATE -> Walking" w)) STATE_IDLE.
Proof.
  intro H. apply Qleb_le in H. open_world w.
  run_update. rewrite H. reflexivity.
Qed.

(** Out of stamina, the tick ends idle with the pool at exactly 0. *)
Lemma walking_tick_exhausted (w : World) :
  usesWalkingUpdate (currentState (obj w)) = true ->
  stamina (player w) - MOVE_STAMINA_COST <= 0 ->
  currentState (obj (tick w)) = STATE_IDLE /\ stamina (player (tick w)) = 0.
Proof.
  intros Hs Hm.
  rewrite Tick_walking by exact Hs.
  rewrite PlayerUpdateWalking_depleted by exact Hm.
  split.
  - apply ChangeState_Internal_control.
  - destruct (ChangeState_frame_idle screenWidth screenHeight rand Internal
                (set_stamina 0 (log "-> UPDATE -> Walking" w)))
      as (_ & _ & -> & _).
    reflexivity.
Qed.

(** With stamina left, the tick is the movement block followed by the two
    checks, in this order: death, then animation completion. *)
Lemma PlayerUpdateWalking_moving (w : World) :
  0 < stamina (player w) - MOVE_STAMINA_COST ->
  PlayerUpdateWalking screenWidth screenHeight rand UpdateAnimation w
  = let w1 := walkingStride screenWidth screenHeight UpdateAnimation
                (set_stamina (stamina (player w) - MOVE_STAMINA_COST)
                             (log "-> UPDATE -> Walking" w)) in
    let w2 := if Qleb (health (obj w)) 0
              then changeState Internal w1 STATE_DEAD else w1 in
    if (currentFrame (animation (obj w2))
          >=? frameCount (animation (obj w2)) - 1)%Z
    then changeState Internal w2 STATE_IDLE else w2.
Proof.
  intro H. apply Qleb_gt in H. open_world w.
  destruct cur; run_update; rewrite H; reflexivity.
Qed.

(** What the movement block writes. *)
Lemma walkingStride_spec (w : World) :
  let s := currentState (obj w) in
  let d := moveDirectionOf s (speed (obj w)) in
  let w' := walkingStride screenWidth screenHeight UpdateAnimation w in
  position (obj w')
    = mkVector2 (clampAxis screenWidth (vx (position (obj w)) + vx d))
                (clampAxis screenHeight (vy (position (obj w)) + vy d))
  /\ c2_p (collider (obj w')) = position (obj w')
  /\ lastDirection (obj w')
     = (if isCardinal s then s else lastDirection (obj w))
  /\ currentState (obj w') = s
  /\ health (obj w') = health (obj w)
  /\ stamina (player w') = stamina (player w)
  /\ animation (obj w') = UpdateAnimation (animation (obj w)).
Proof.
  open_world w. destruct cur; run_update; repeat split.
Qed.

Lemma PlayerUpdateDie_final (w : World) :
  let cursor := UpdateAnimation (animation (obj w)) in
  (currentFrame cursor >= frameCount cursor - 1)%Z ->
  PlayerUpdateDie screenWidth screenHeight rand UpdateAnimation w
  = let w1 := set_lives (lives (player w) - 1)
               (advanceAnimation UpdateAnimation (say "-> UPDATE -> Die" w)) in
    if (lives (player w) - 1 >? 0)%Z
    then changeState Internal w1 STATE_RESPAWN
    else changeState Internal
           (set_lives 4 (set_position (spawnPoint (player w)) w1)) STATE_IDLE.
Proof.
  intros cursor H. subst cursor. apply Z.ge_le, Z.geb_le in H. open_world w.
  cbv beta delta [currentFrame frameCount] in H.
  run_update. rewrite H. reflexivity.
Qed.

Lemma PlayerUpdateDie_earlier (w : World) :
  let cursor := UpdateAnimation (animation (obj w)) in
  (currentFrame cursor < frameCount cursor - 1)%Z ->
  PlayerUpdateDie screenWidth screenHeight rand UpdateAnimation w
  = advanceAnimation UpdateAnimation (say "-> UPDATE -> Die" w).
Proof.
  intros cursor H. subst cursor.
  assert (H' : (currentFrame (UpdateAnimation (animation (obj w))) >=?
                frameCount (UpdateAnimation (animation (obj w))) - 1)%Z = false)
    by (rewrite Z.geb_leb; apply Z.leb_gt; exact H).
  open_world w. cbv beta delta [currentFrame frameCount] in H'.
  run_update. rewrite H'. reflexivity.
Qed.

Lemma PlayerUpdateShield_eq (w : World) :
  PlayerUpdateShield screenWidth screenHeight rand UpdateAnimation w
  = let w1 := set_stamina (stamina (player w) - 0.05)
                (advanceAnimation UpdateAnimation
                   (log "-> UPDATE -> Shield" w)) in
    let w2 := if Qleb (stamina (player w) - 0.05) 0
              then changeState Internal w1 STATE_IDLE else w1 in
    emit (Circle (int_of_float (vx (position (obj w2))))
                 (int_of_float (vy (position (obj w2))))
                 (shieldRadius (player w2)) (shieldColor (player w2))) w2.
Proof.
  open_world w. reflexivity.
Qed.

End Steps.

(** ** The claims on dispatch and on the per-tick updates *)

Section Claims.

Variables screenWidth screenHeight : Z.
Variable rand : nat -> Z.
Variable UpdateAnimation : Animation -> Animation.

Local Abbreviation dispatch :=
  (Dispatch screenWidth screenHeight rand UpdateAnimation).
Local Abbreviation tick :=
  (Tick screenWidth screenHeight rand UpdateAnimation).
Local Abbreviation changeState :=
  (ChangeState screenWidth screenHeight rand).

(** C1.  In IDLE, the dispatcher reacts to every event as the IDLE line of
    the reaction table says: MOVE leads to WALKING, each directional
    MOVE_* to its MOVING_* state, ATTACK to ATTACKING, DEFEND and SHIELD to
    SHIELD, DIE to DEAD; NONE only copies the current state into
    [previousState]; RESPAWN, COLLISION_START, COLLISION_END (and the
    sentinel) leave the whole world, console included, as it was. *)
Theorem idle_dispatch_table (w : World) (e : Event) :
  currentState (obj w) = STATE_IDLE ->
  realises STATE_IDLE (idleReaction e) w (dispatch w e)
  /\ (idleReaction e = Ignored -> dispatch w e = w).
Proof.
  intro Hs. open_world w. subst.
  destruct e;
    (split; [ cbv [idleReaction realises]; try split; run; reflexivity
            | try discriminate; reflexivity ]).
Qed.

(** C4.  An ATTACKING tick deducts the mana cost of 1.  When the result
    is not positive, mana is set to exactly 0 and the entity is in IDLE at
    the end of the same tick; the animator is not run (the outcome is the
    same under every animator) and the cursor is the idle sequence that
    the entry hook installed.  Otherwise mana keeps the deducted value,
    the state stays ATTACKING and the animator has advanced the cursor.
    In particular mana 0.5 ends as mana 0 in IDLE. *)
Theorem attacking_tick (w : World) :
  currentState (obj w) = STATE_ATTACKING ->
  (mana (player w) - ATTACK_MANA_COST <= 0 ->
     mana (player (tick w)) = 0
     /\ currentState (obj (tick w)) = STATE_IDLE
     /\ isIdleAnimation (animation (obj (tick w)))
     /\ forall animator,
          Tick screenWidth screenHeight rand animator w = tick w)
  /\ (0 < mana (player w) - ATTACK_MANA_COST ->
     mana (player (tick w)) = mana (player w) - ATTACK_MANA_COST
     /\ currentState (obj (tick w)) = STATE_ATTACKING
     /\ animation (obj (tick w)) = UpdateAnimation (animation (obj w)))
  /\ (mana (player w) == 0.5 ->
     mana (player (tick w)) = 0
     /\ currentState (obj (tick w)) = STATE_IDLE).
Proof.
  intro Hs.
  assert (depleted : mana (player w) - ATTACK_MANA_COST <= 0 ->
     mana (player (tick w)) = 0
     /\ currentState (obj (tick w)) = STATE_IDLE
     /\ isIdleAnimation (animation (obj (tick w)))
     /\ forall animator,
          Tick screenWidth screenHeight rand animator w = tick w).
  { intro Hm.
    assert (E : forall animator,
      Tick screenWidth screenHeight rand animator w
      = changeState Internal
          (set_mana 0 (log "-> UPDATE -> Attacking" w)) STATE_IDLE).
    { intro animator.
      rewrite Tick_attacking by exact Hs.
      apply PlayerUpdateAttacking_depleted; exact Hm. }
    rewrite (E UpdateAnimation).
    split; [|split; [|split]].
    - destruct (ChangeState_frame_idle screenWidth screenHeight rand Internal
                  (set_mana 0 (log "-> UPDATE -> Attacking" w)))
        as (_ & _ & _ & ->).
      reflexivity.
    - apply ChangeState_Internal_control.
    - apply ChangeState_Internal_idle_animation.
      change (currentState (obj w) <> STATE_IDLE). rewrite Hs. discriminate.
    - intro animator. apply E. }
  split; [exact depleted|]. split.
  - intro Hm.
    rewrite Tick_attacking by exact Hs.
    rewrite PlayerUpdateAttacking_continues by exact Hm.
    split; [reflexivity|]. split; [exact Hs | reflexivity].
  - intro Hm. destruct depleted as (A & B & _).
    + rewrite Hm. unfold ATTACK_MANA_COST. lra.
    + split; assumption.
Qed.

(** C5, as amended.  A WALKING/MOVING_* tick first deducts the stamina
    cost of 0.05.  When the result is not positive, stamina is set to 0,
    the entity is in IDLE at the end of the same tick and the rest of the
    tick is skipped: position, collider and lastDirection are unchanged
    and the animator is not run.  The animation cursor itself is replaced:
    the entry hook of IDLE installs an idle sequence at frame 0. *)
Theorem walking_tick_depleted (w : World) :
  usesWalkingUpdate (currentState (obj w)) = true ->
  stamina (player w) - MOVE_STAMINA_COST <= 0 ->
  stamina (player (tick w)) = 0
  /\ currentState (obj (tick w)) = STATE_IDLE
  /\ previousState (obj (tick w)) = currentState (obj w)
  /\ position (obj (tick w)) = position (obj w)
  /\ collider (obj (tick w)) = collider (obj w)
  /\ lastDirection (obj (tick w)) = lastDirection (obj w)
  /\ isIdleAnimation (animation (obj (tick w)))
  /\ forall animator, Tick screenWidth screenHeight rand animator w = tick w.
Proof.
  intros Hs Hm.
  set (v := set_stamina 0 (log "-> UPDATE -> Walking" w)).
  assert (E : forall animator,
    Tick screenWidth screenHeight rand animator w
    = changeState Internal v STATE_IDLE).
  { intro animator.
    rewrite Tick_walking by exact Hs.
    apply PlayerUpdateWalking_depleted; exact Hm. }
  rewrite (E UpdateAnimation).
  destruct (ChangeState_Internal_control screenWidth screenHeight rand
              v STATE_IDLE) as [Hc Hp].
  destruct (ChangeState_frame_idle screenWidth screenHeight rand Internal v)
    as (Hpos & _ & Hst & _).
  destruct (ChangeState_keeps screenWidth screenHeight rand Internal v
              STATE_IDLE) as (Hdir & Hcol & _).
  repeat (split; [assumption|]).
  split.
  - apply ChangeState_Internal_idle_animation.
    change (currentState (obj w) <> STATE_IDLE).
    intro Hi. rewrite Hi in Hs. discriminate Hs.
  - intro animator. apply E.
Qed.

(** C9.  On a WALKING/MOVING_* tick that keeps stamina positive while
    health is not positive, the entity ends the tick in DEAD: the entry
    hook of DEAD has installed the death sequence at frame 0 of 6, so the
    animation-completion test that follows does not fire, wherever the
    movement animation stood. *)
Theorem walking_tick_death (w : World) :
  usesWalkingUpdate (currentState (obj w)) = true ->
  0 < stamina (player w) - MOVE_STAMINA_COST ->
  health (obj w) <= 0 ->
  currentState (obj (tick w)) = STATE_DEAD.
Proof.
  intros Hs Hm Hh. apply Qleb_le in Hh.
  rewrite Tick_walking by exact Hs.
  rewrite PlayerUpdateWalking_moving by exact Hm.
  cbv zeta. rewrite Hh.
  rewrite ChangeState_Internal_dead_animation.
  change ((currentFrame (mkAnimation (firstn 6 deadFrames) 6 0 0.2 0)
           >=? frameCount (mkAnimation (firstn 6 deadFrames) 6 0 0.2 0) - 1)%Z)
    with false.
  cbv iota. apply ChangeState_Internal_control.
Qed.

(** C3.  A DEAD tick on which the death animation, once advanced, stands
    on its final frame takes one life: when lives remain the count has
    dropped by exactly 1 and the entity is in RESPAWN; when none remains
    the count is back at 4, the position is the spawn point and the entity
    is in IDLE, entered straight from DEAD.  On a DEAD tick before the
    final frame the player changes in nothing but the animation cursor,
    so lives is unchanged. *)
Theorem dead_tick (w : World) :
  currentState (obj w) = STATE_DEAD ->
  let cursor := UpdateAnimation (animation (obj w)) in
  ((currentFrame cursor >= frameCount cursor - 1)%Z ->
     ((lives (player w) - 1 > 0)%Z ->
        lives (player (tick w)) = (lives (player w) - 1)%Z
        /\ currentState (obj (tick w)) = STATE_RESPAWN
        /\ previousState (obj (tick w)) = STATE_DEAD)
     /\ ((lives (player w) - 1 <= 0)%Z ->
        lives (player (tick w)) = 4%Z
        /\ position (obj (tick w)) = spawnPoint (player w)
        /\ currentState (obj (tick w)) = STATE_IDLE
        /\ previousState (obj (tick w)) = STATE_DEAD))
  /\ ((currentFrame cursor < frameCount cursor - 1)%Z ->
     lives (player (tick w)) = lives (player w)
     /\ currentState (obj (tick w)) = STATE_DEAD
     /\ player (tick w) = player (set_animation cursor w)).
Proof.
  intros Hs cursor. split.
  - intro Hf. rewrite Tick_dead by exact Hs.
    rewrite PlayerUpdateDie_final by exact Hf. cbv zeta.
    split; intro Hl.
    + apply Z.gt_lt, Z.gtb_lt in Hl. rewrite Hl.
      match goal with
      | |- context [ChangeState _ _ _ Internal ?v STATE_RESPAWN] =>
          destruct (ChangeState_Internal_control screenWidth screenHeight
                      rand v STATE_RESPAWN) as [Hc Hp];
          destruct (ChangeState_keeps screenWidth screenHeight rand Internal
                      v STATE_RESPAWN) as (_ & _ & Hlv & _)
      end.
      split; [exact Hlv|]. split; [exact Hc|]. rewrite Hp. exact Hs.
    + assert (Hl' : (lives (player w) - 1 >? 0)%Z = false)
        by (rewrite Z.gtb_ltb; apply Z.ltb_ge; exact Hl).
      rewrite Hl'.
      match goal with
      | |- context [ChangeState _ _ _ Internal ?v STATE_IDLE] =>
          destruct (ChangeState_Internal_control screenWidth screenHeight
                      rand v STATE_IDLE) as [Hc Hp];
          destruct (ChangeState_keeps screenWidth screenHeight rand Internal
                      v STATE_IDLE) as (_ & _ & Hlv & _);
          destruct (ChangeState_frame_idle screenWidth screenHeight rand
                      Internal v) as (Hpos & _)
      end.
      split; [exact Hlv|]. split; [exact Hpos|]. split; [exact Hc|].
      rewrite Hp. exact Hs.
  - intro Hf. rewrite Tick_dead by exact Hs.
    rewrite PlayerUpdateDie_earlier by exact Hf.
    split; [reflexivity|]. split; [exact Hs | reflexivity].
Qed.

(** *** Movement *)

Lemma clampAxis_upper (extent : Z) (c : Q) :
  clampAxis extent c <= inject_Z extent - PLAYER_RADIUS.
Proof.
  unfold clampAxis.
  destruct (Qltb c PLAYER_RADIUS) eqn:E1;
    destruct (Qltb (inject_Z extent - PLAYER_RADIUS) _) eqn:E2;
    try apply Qle_refl; apply Qltb_ge in E2; exact E2.
Qed.

Lemma clampAxis_lower (extent : Z) (c : Q) :
  (64 <= extent)%Z -> PLAYER_RADIUS <= clampAxis extent c.
Proof.
  intro Hw.
  assert (Hq : 64 <= inject_Z extent)
    by (change 64 with (inject_Z 64); rewrite <- Zle_Qle; exact Hw).
  unfold clampAxis.
  destruct (Qltb c PLAYER_RADIUS) eqn:E1;
    destruct (Qltb (inject_Z extent - PLAYER_RADIUS) _) eqn:E2;
    try apply Qltb_ge in E1; unfold PLAYER_RADIUS in *; lra.
Qed.

(** On a tick that moves, the two checks that follow the movement block
    leave its result in place. *)
Lemma walking_tick_moved (w : World) :
  usesWalkingUpdate (currentState (obj w)) = true ->
  0 < stamina (player w) - MOVE_STAMINA_COST ->
  let w1 := walkingStride screenWidth screenHeight UpdateAnimation
              (set_stamina (stamina (player w) - MOVE_STAMINA_COST)
                           (log "-> UPDATE -> Walking" w)) in
  position (obj (tick w)) = position (obj w1)
  /\ collider (obj (tick w)) = collider (obj w1)
  /\ lastDirection (obj (tick w)) = lastDirection (obj w1).
Proof.
  intros Hs Hm w1.
  rewrite Tick_walking by exact Hs.
  rewrite PlayerUpdateWalking_moving by exact Hm.
  cbv zeta. fold w1.
  assert (dead :
    position (obj (changeState Internal w1 STATE_DEAD)) = position (obj w1)
    /\ collider (obj (changeState Internal w1 STATE_DEAD)) = collider (obj w1)
    /\ lastDirection (obj (changeState Internal w1 STATE_DEAD))
       = lastDirection (obj w1)).
  { destruct (ChangeState_frame_dead screenWidth screenHeight rand Internal w1)
      as (-> & _).
    destruct (ChangeState_keeps screenWidth screenHeight rand Internal w1
                STATE_DEAD) as (-> & -> & _).
    repeat split. }
  assert (idle : forall v,
    position (obj (changeState Internal v STATE_IDLE)) = position (obj v)
    /\ collider (obj (changeState Internal v STATE_IDLE)) = collider (obj v)
    /\ lastDirection (obj (changeState Internal v STATE_IDLE))
       = lastDirection (obj v)).
  { intro v.
    destruct (ChangeState_frame_idle screenWidth screenHeight rand Internal v)
      as (-> & _).
    destruct (ChangeState_keeps screenWidth screenHeight rand Internal v
                STATE_IDLE) as (-> & -> & _).
    repeat split. }
  destruct (Qleb (health (obj w)) 0);
    match goal with
    | |- context [if ?c then _ else _] => destruct c
    end;
    repeat match goal with
    | |- context [ChangeState _ _ _ Internal ?v STATE_IDLE] =>
        destruct (idle v) as (-> & -> & ->)
    end;
    try exact dead; repeat split.
Qed.

(** On a screen narrower than two radii the upper test of the clamp wins:
    the coordinate ends below the radius, and no coordinate at all lies
    between 32 and the extent minus 32. *)
Lemma clampAxis_narrow (extent : Z) (c : Q) :
  (extent < 64)%Z -> clampAxis extent c < 32.
Proof.
  intro Hn.
  assert (Hq : inject_Z extent < 64)
    by (change 64 with (inject_Z 64); rewrite <- Zlt_Qlt; exact Hn).
  pose proof (clampAxis_upper extent c) as Hu.
  unfold PLAYER_RADIUS in Hu. lra.
Qed.

(** C6.  After a WALKING/MOVING_* tick that moves, whatever the starting
    position, the centre of the collider is the position, x is at most
    the width minus 32 and y at most the height minus 32; x is at least
    32 wherever the interval from 32 to the width minus 32 has a point
    (a width of at least 64), and y is at least 32 wherever the height
    is at least 64.  Each axis is bounded on its own.  The tick being any
    moving tick from any position, a run of such ticks near an edge never
    ends outside these bounds. *)
Theorem walking_tick_within_screen (w : World) :
  usesWalkingUpdate (currentState (obj w)) = true ->
  0 < stamina (player w) - MOVE_STAMINA_COST ->
  c2_p (collider (obj (tick w))) = position (obj (tick w))
  /\ vx (position (obj (tick w))) <= inject_Z screenWidth - 32
  /\ vy (position (obj (tick w))) <= inject_Z screenHeight - 32
  /\ ((64 <= screenWidth)%Z -> 32 <= vx (position (obj (tick w))))
  /\ ((64 <= screenHeight)%Z -> 32 <= vy (position (obj (tick w)))).
Proof.
  intros Hs Hm.
  destruct (walking_tick_moved w Hs Hm) as (Hpos & Hcol & _).
  rewrite Hpos, Hcol.
  match goal with
  | |- context [walkingStride _ _ _ ?v] =>
      destruct (walkingStride_spec screenWidth screenHeight UpdateAnimation v)
        as (Hp & Hc & _)
  end.
  split; [exact Hc|].
  rewrite Hp. cbn [vx vy].
  match goal with
  | |- clampAxis _ ?a <= _ /\ clampAxis _ ?b <= _ /\ _ =>
      pose proof (clampAxis_upper screenWidth a) as Hux;
      pose proof (clampAxis_upper screenHeight b) as Huy;
      pose proof (clampAxis_lower screenWidth a) as Hlx;
      pose proof (clampAxis_lower screenHeight b) as Hly
  end.
  unfold PLAYER_RADIUS in Hux, Huy, Hlx, Hly.
  split; [lra|]. split; [lra|].
  split; intro Hbig; [specialize (Hlx Hbig) | specialize (Hly Hbig)]; lra.
Qed.

Lemma moveDirectionOf_cardinal (s : State) (moveSpeed : Q) :
  isCardinal s = true -> alongOneAxis (moveDirectionOf s moveSpeed) moveSpeed.
Proof.
  unfold alongOneAxis.
  destruct s; try discriminate; intros _; cbn [moveDirectionOf vx vy].
  - left. split; [reflexivity | right; reflexivity].
  - left. split; [reflexivity | left; reflexivity].
  - right. split; [reflexivity | right; reflexivity].
  - right. split; [reflexivity | left; reflexivity].
Qed.

Lemma moveDirectionOf_diagonal (s : State) (moveSpeed : Q) :
  isDiagonal s = true ->
  halfOnBothAxes (moveDirectionOf s moveSpeed) moveSpeed.
Proof.
  unfold halfOnBothAxes.
  destruct s; try discriminate; intros _; cbn [moveDirectionOf vx vy];
    split;
    first [ left; field; fail | right; field ].
Qed.

(** C8.  On a tick that moves, the displacement of a directional state is
    the one the specification describes: a cardinal state moves at full
    speed along its axis and by 0 along the other, and [lastDirection]
    becomes that state; a diagonal state moves by exactly half the speed
    along each axis (no normalisation) and [lastDirection] keeps its
    value.  The signs are those of the heading, and the new position is
    the old one plus that displacement, put through the screen clamp. *)
Theorem walking_tick_direction (w : World) :
  0 < stamina (player w) - MOVE_STAMINA_COST ->
  let s := currentState (obj w) in
  let d := moveDirectionOf s (speed (obj w)) in
  (isCardinal s = true ->
     alongOneAxis d (speed (obj w))
     /\ lastDirection (obj (tick w)) = s)
  /\ (isDiagonal s = true ->
      halfOnBothAxes d (speed (obj w))
      /\ lastDirection (obj (tick w)) = lastDirection (obj w))
  /\ (isCardinal s = true \/ isDiagonal s = true ->
      vx d == fst (specDirection s (speed (obj w)))
      /\ vy d == snd (specDirection s (speed (obj w)))
      /\ position (obj (tick w))
         = mkVector2 (clampAxis screenWidth (vx (position (obj w)) + vx d))
                     (clampAxis screenHeight (vy (position (obj w)) + vy d))).
Proof.
  intros Hm s d.
  assert (moves : isCardinal s = true \/ isDiagonal s = true ->
                  usesWalkingUpdate (currentState (obj w)) = true).
  { fold s. destruct s; cbn; intros [H|H]; congruence. }
  assert (after : isCardinal s = true \/ isDiagonal s = true ->
    position (obj (tick w))
    = mkVector2 (clampAxis screenWidth (vx (position (obj w)) + vx d))
                (clampAxis screenHeight (vy (position (obj w)) + vy d))
    /\ lastDirection (obj (tick w))
       = (if isCardinal s then s else lastDirection (obj w))).
  { intro Hd.
    destruct (walking_tick_moved w (moves Hd) Hm) as (Hpos & _ & Hdir).
    rewrite Hpos, Hdir.
    match goal with
    | |- context [walkingStride _ _ _ ?v] =>
        destruct (walkingStride_spec screenWidth screenHeight
                    UpdateAnimation v) as (Hp & _ & Hl & _)
    end.
    split; [exact Hp | exact Hl]. }
  split; [|split].
  - intro Hc. destruct (after (or_introl Hc)) as (_ & Hl).
    split; [apply moveDirectionOf_cardinal; exact Hc|].
    rewrite Hl, Hc. reflexivity.
  - intro Hg. destruct (after (or_intror Hg)) as (_ & Hl).
    split; [apply moveDirectionOf_diagonal; exact Hg|].
    rewrite Hl. destruct s; try discriminate Hg; reflexivity.
  - intro Hd. destruct (after Hd) as (Hp & _).
    split; [|split; [|exact Hp]];
      subst d; destruct s; destruct Hd as [Hd|Hd]; try discriminate Hd;
      cbn; field.
Qed.

(** *** Respawn *)

Lemma screenCentre_coordinates :
  vx (screenCentre screenWidth screenHeight) == inject_Z screenWidth / 2
  /\ vy (screenCentre screenWidth screenHeight) == inject_Z screenHeight / 2.
Proof.
  unfold screenCentre. cbn [vx vy]. split; field.
Qed.

Lemma PlayerEnterRespawn_position (w : World) :
  position (obj (PlayerEnterRespawn screenWidth screenHeight w))
  = screenCentre screenWidth screenHeight.
Proof. open_world w. reflexivity. Qed.

Lemma PlayerEnterRespawn_refills (w : World) :
  refilledAtCentre screenWidth screenHeight
    (PlayerEnterRespawn screenWidth screenHeight w).
Proof.
  unfold refilledAtCentre.
  split.
  - rewrite PlayerEnterRespawn_position. exact screenCentre_coordinates.
  - open_world w. run. repeat split.
Qed.

Lemma ChangeState_Internal_respawn_position (w : World) :
  position (obj (changeState Internal w STATE_RESPAWN))
  = screenCentre screenWidth screenHeight.
Proof.
  rewrite ChangeState_Internal_eq. cbv zeta.
  change (runHook (PlayerEntry screenWidth screenHeight rand STATE_RESPAWN) ?v)
    with (PlayerEnterRespawn screenWidth screenHeight v).
  apply PlayerEnterRespawn_position.
Qed.

Lemma ChangeState_Internal_respawn (w : World) :
  refilledAtCentre screenWidth screenHeight
    (changeState Internal w STATE_RESPAWN).
Proof.
  rewrite ChangeState_Internal_eq. cbv zeta.
  change (runHook (PlayerEntry screenWidth screenHeight rand STATE_RESPAWN) ?v)
    with (PlayerEnterRespawn screenWidth screenHeight v).
  apply PlayerEnterRespawn_refills.
Qed.

(** C10.  The entry hook of RESPAWN is [PlayerEnterRespawn], and it does
    more than install the respawn sequence: the position becomes the
    screen centre, that is half the width and half the height, and
    health, stamina and mana become 100, whatever they were.  Hence every
    accepted transition into RESPAWN, forced or validated, ends in
    RESPAWN at the centre with full pools. *)
Theorem respawn_entry_refills (w : World) :
  PlayerEntry screenWidth screenHeight rand STATE_RESPAWN
    = Some (PlayerEnterRespawn screenWidth screenHeight)
  /\ refilledAtCentre screenWidth screenHeight
       (PlayerEnterRespawn screenWidth screenHeight w)
  /\ forall t : Trigger,
       t = Internal
       \/ TransitionAllowed (currentState (obj w)) STATE_RESPAWN = true ->
       currentState (obj (changeState t w STATE_RESPAWN)) = STATE_RESPAWN
       /\ refilledAtCentre screenWidth screenHeight
            (changeState t w STATE_RESPAWN).
Proof.
  split; [reflexivity|]. split; [apply PlayerEnterRespawn_refills|].
  intros t Ht.
  assert (E : changeState t w STATE_RESPAWN
              = changeState Internal w STATE_RESPAWN).
  { destruct t; [|reflexivity].
    destruct Ht as [Ht|Ht]; [discriminate Ht|].
    rewrite ChangeState_External_eq, Ht. reflexivity. }
  rewrite E. split.
  - apply ChangeState_Internal_control.
  - apply ChangeState_Internal_respawn.
Qed.

(** *** The shield *)

Lemma shieldExits_app (a b : list Output) :
  shieldExits (a ++ b) = (shieldExits a + shieldExits b)%nat.
Proof.
  unfold shieldExits. rewrite filter_app, length_app. reflexivity.
Qed.

Lemma quiet_refl (w : World) : quiet w w.
Proof.
  split; [reflexivity|]. exists []. rewrite app_nil_r. split; reflexivity.
Qed.

Lemma quiet_trans (a b c : World) : quiet a b -> quiet b c -> quiet a c.
Proof.
  intros (Hs1 & o1 & Hc1 & He1) (Hs2 & o2 & Hc2 & He2).
  split; [congruence|].
  exists (o1 ++ o2). rewrite Hc2, Hc1, app_assoc, shieldExits_app, He1, He2.
  split; reflexivity.
Qed.

(** Closes [quiet] between two worlds that have been evaluated. *)
Ltac quiet_by_run :=
  split;
  [ reflexivity
  | first [ exists []; rewrite app_nil_r; split; reflexivity
          | rewrite <- ?app_assoc; eexists; split; reflexivity ] ].

(** A forced transition out of a state other than SHIELD does not run the
    exit hook of SHIELD. *)
Lemma ChangeState_Internal_quiet (v : World) (s : State) :
  currentState (obj v) <> STATE_SHIELD -> forcedTarget s ->
  quiet v (changeState Internal v s).
Proof.
  intros Hv Hs. unfold quiet. open_world v.
  destruct Hs as [->|[->| ->]]; destruct cur; try congruence; clear Hv;
    run; quiet_by_run.
Qed.

Lemma calm_transition (w v : World) (s : State) :
  calm w v -> forcedTarget s -> calm w (changeState Internal v s).
Proof.
  intros [Hq Hv] Hs. split.
  - apply (quiet_trans w v _ Hq). apply ChangeState_Internal_quiet; assumption.
  - destruct (ChangeState_Internal_control screenWidth screenHeight rand v s)
      as [-> _].
    destruct Hs as [->|[->| ->]]; discriminate.
Qed.

Lemma calm_if (c : bool) (w a b : World) :
  calm w a -> calm w b -> calm w (if c then a else b).
Proof. destruct c; auto. Qed.

Lemma sameShield_calm (w v : World) :
  currentState (obj w) <> STATE_SHIELD -> sameShield w v -> calm w v.
Proof.
  intros Hw (Hs & Hc & Ho). split; [split; assumption|]. rewrite Hc. exact Hw.
Qed.

Ltac sameShield_by_run w :=
  unfold sameShield; open_world w; run_update;
  split; [reflexivity|]; split; [reflexivity|];
  first [ exists []; rewrite app_nil_r; split; reflexivity
        | rewrite <- ?app_assoc; eexists; split; reflexivity ].

Lemma walkingStride_sameShield (w : World) (q : Q) :
  sameShield w
    (walkingStride screenWidth screenHeight UpdateAnimation
       (set_stamina q (log "-> UPDATE -> Walking" w))).
Proof.
  unfold sameShield. open_world w.
  destruct cur; run_update;
    (split; [reflexivity|]; split; [reflexivity|];
     rewrite <- ?app_assoc; eexists; split; reflexivity).
Qed.

(** The update functions written as their tests over folded transitions. *)
Lemma PlayerUpdateWalking_eq (w : World) :
  PlayerUpdateWalking screenWidth screenHeight rand UpdateAnimation w
  = let w0 := log "-> UPDATE -> Walking" w in
    if Qleb (stamina (player w) - MOVE_STAMINA_COST) 0
    then changeState Internal (set_stamina 0 w0) STATE_IDLE
    else
      let w1 := walkingStride screenWidth screenHeight UpdateAnimation
                  (set_stamina (stamina (player w) - MOVE_STAMINA_COST) w0) in
      let w2 := if Qleb (health (obj w)) 0
                then changeState Internal w1 STATE_DEAD else w1 in
      if (currentFrame (animation (obj w2))
            >=? frameCount (animation (obj w2)) - 1)%Z
      then changeState Internal w2 STATE_IDLE else w2.
Proof.
  cbv zeta.
  destruct (Qleb (stamina (player w) - MOVE_STAMINA_COST) 0) eqn:E.
  - apply PlayerUpdateWalking_depleted. apply Qleb_le. exact E.
  - apply PlayerUpdateWalking_moving. apply Qleb_gt. exact E.
Qed.

Lemma PlayerUpdateAttacking_eq (w : World) :
  PlayerUpdateAttacking screenWidth screenHeight rand UpdateAnimation w
  = let w0 := log "-> UPDATE -> Attacking" w in
    if Qleb (mana (player w) - ATTACK_MANA_COST) 0
    then changeState Internal (set_mana 0 w0) STATE_IDLE
    else advanceAnimation UpdateAnimation
           (set_mana (mana (player w) - ATTACK_MANA_COST) w0).
Proof.
  cbv zeta.
  destruct (Qleb (mana (player w) - ATTACK_MANA_COST) 0) eqn:E.
  - apply PlayerUpdateAttacking_depleted. apply Qleb_le. exact E.
  - apply PlayerUpdateAttacking_continues. apply Qleb_gt. exact E.
Qed.

Lemma PlayerUpdateDie_eq (w : World) :
  PlayerUpdateDie screenWidth screenHeight rand UpdateAnimation w
  = let w0 := advanceAnimation UpdateAnimation (say "-> UPDATE -> Die" w) in
    if (currentFrame (animation (obj w0))
          >=? frameCount (animation (obj w0)) - 1)%Z
    then
      let w1 := set_lives (lives (player w) - 1) w0 in
      if (lives (player w) - 1 >? 0)%Z
      then changeState Internal w1 STATE_RESPAWN
      else changeState Internal
             (set_lives 4 (set_position (spawnPoint (player w)) w1)) STATE_IDLE
    else w0.
Proof. open_world w. reflexivity. Qed.

Lemma PlayerUpdateRespawn_eq (w : World) :
  PlayerUpdateRespawn screenWidth screenHeight rand UpdateAnimation w
  = let w0 := advanceAnimation UpdateAnimation
                (say "-> UPDATE -> Respawn" w) in
    if (currentFrame (animation (obj w0))
          >=? frameCount (animation (obj w0)) - 1)%Z
    then changeState Internal w0 STATE_IDLE else w0.
Proof. open_world w. reflexivity. Qed.

(** Peels the tests and the forced transitions off an update. *)
Ltac calm_tests :=
  repeat match goal with
  | |- calm _ (if _ then _ else _) => apply calm_if
  | |- calm _ (ChangeState _ _ _ Internal _ _) =>
      apply calm_transition; [|assumption]
  end.

(** A tick taken outside SHIELD stays outside SHIELD, prints no
    shield-exit line and leaves the shield flag alone. *)
Lemma tick_calm (w : World) :
  currentState (obj w) <> STATE_SHIELD -> calm w (tick w).
Proof.
  intro Hw.
  assert (idleT : forcedTarget STATE_IDLE) by (left; reflexivity).
  assert (deadT : forcedTarget STATE_DEAD) by (right; left; reflexivity).
  assert (respT : forcedTarget STATE_RESPAWN) by (right; right; reflexivity).
  destruct (usesWalkingUpdate (currentState (obj w))) eqn:Hwalk.
  { rewrite Tick_walking by exact Hwalk.
    rewrite PlayerUpdateWalking_eq. cbv zeta.
    calm_tests;
      apply sameShield_calm; try exact Hw;
      try apply walkingStride_sameShield;
      clear; sameShield_by_run w. }
  destruct (currentState (obj w)) eqn:Hs; try discriminate Hwalk;
    try congruence.
  - rewrite Tick_idle by exact Hs.
    apply sameShield_calm; [congruence|].
    clear. sameShield_by_run w.
  - rewrite Tick_attacking by exact Hs.
    rewrite PlayerUpdateAttacking_eq. cbv zeta.
    calm_tests;
      (apply sameShield_calm; [congruence|]); clear; sameShield_by_run w.
  - rewrite Tick_dead by exact Hs.
    rewrite PlayerUpdateDie_eq. cbv zeta.
    calm_tests;
      (apply sameShield_calm; [congruence|]); clear; sameShield_by_run w.
  - rewrite Tick_respawn by exact Hs.
    rewrite PlayerUpdateRespawn_eq. cbv zeta.
    calm_tests;
      (apply sameShield_calm; [congruence|]); clear; sameShield_by_run w.
  - rewrite Tick_collision by exact Hs.
    split; [apply quiet_refl | congruence].
Qed.

Lemma ticks_calm (n : nat) :
  forall w0 w : World,
    calm w0 w ->
    calm w0 (ticks screenWidth screenHeight rand UpdateAnimation n w).
Proof.
  induction n as [|n IH]; intros w0 w Hc; [exact Hc|].
  cbn [ticks]. apply IH.
  destruct Hc as [Hq Hs]. destruct (tick_calm w Hs) as [Hq' Hs'].
  split; [exact (quiet_trans w0 w _ Hq Hq') | exact Hs'].
Qed.

(** C7.  In SHIELD, the dispatcher reacts to every event as the SHIELD
    line of the reaction table says: each directional MOVE_* leads to
    IDLE, DIE to DEAD, and every other event leaves the player as it was.
    On a transition out of SHIELD the exit hook runs exactly once (its
    line is printed once) and the shield flag is false afterwards; over
    any number of ticks that follow, the hook does not run again and the
    flag stays false. *)
Theorem shield_dispatch_table (w : World) (e : Event) :
  currentState (obj w) = STATE_SHIELD ->
  realises STATE_SHIELD (shieldReaction e) w (dispatch w e)
  /\ (shieldReaction e <> Ignored ->
      shieldActive (player (dispatch w e)) = false
      /\ (exists out,
            console (dispatch w e) = console w ++ out
            /\ shieldExits out = 1%nat)
      /\ forall n : nat,
           let w' := ticks screenWidth screenHeight rand UpdateAnimation n
                       (dispatch w e) in
           shieldActive (player w') = false
           /\ exists out,
                console w' = console (dispatch w e) ++ out
                /\ shieldExits out = 0%nat).
Proof.
  intro Hs.
  assert (table : realises STATE_SHIELD (shieldReaction e) w (dispatch w e)).
  { open_world w. subst.
    destruct e; cbv [shieldReaction realises]; try split; run; reflexivity. }
  split; [exact table|].
  intro Hr.
  assert (off : shieldActive (player (dispatch w e)) = false).
  { clear table. open_world w. subst.
    destruct e; try (exfalso; apply Hr; reflexivity); run; reflexivity. }
  split; [exact off|]. split.
  - clear table off. open_world w. subst.
    destruct e; try (exfalso; apply Hr; reflexivity); run;
      rewrite <- ?app_assoc; eexists; (split; [reflexivity|]); reflexivity.
  - intros n w'.
    assert (Hc : calm (dispatch w e) w').
    { apply ticks_calm. split; [apply quiet_refl|].
      destruct (shieldReaction e) as [s| |] eqn:Er;
        try (exfalso; apply Hr; reflexivity).
      + destruct table as [-> _].
        destruct e; cbn in Er; inversion Er; discriminate.
      + destruct e; discriminate Er. }
    destruct Hc as [[Hflag Hout] _].
    split; [rewrite Hflag; exact off | exact Hout].
Qed.

(** *** The stamina floor *)

Lemma player_emit (o : Output) (v : World) : player (emit o v) = player v.
Proof. reflexivity. Qed.

(** A SHIELD tick deducts the cost and keeps the result, whatever its
    sign: unlike the walking and the attacking updates, the branch taken
    on depletion does not reset the pool to 0. *)
Lemma shield_tick_stamina (w : World) :
  currentState (obj w) = STATE_SHIELD ->
  stamina (player (tick w)) = stamina (player w) - 0.05.
Proof.
  intro Hs. rewrite Tick_shield by exact Hs.
  rewrite PlayerUpdateShield_eq. cbv zeta.
  destruct (Qleb (stamina (player w) - 0.05) 0); [|reflexivity].
  rewrite player_emit.
  match goal with
  | |- context [ChangeState _ _ _ Internal ?v STATE_IDLE] =>
      destruct (ChangeState_frame_idle screenWidth screenHeight rand
                  Internal v) as (_ & _ & -> & _)
  end.
  reflexivity.
Qed.

Lemma reachable_rounds (e : Event) (n : nat) (w : World) :
  e <> EVENT_COUNT ->
  reachable screenWidth screenHeight rand UpdateAnimation w ->
  reachable screenWidth screenHeight rand UpdateAnimation
    (rounds screenWidth screenHeight rand UpdateAnimation e n w).
Proof.
  intros He Hw. induction n as [|n IH]; [exact Hw|].
  cbn [rounds]. unfold round. apply reach_tick.
  apply reach_dispatch; assumption.
Qed.

Lemma InitPlayer_heldUp (who : string) (heap : Player) :
  heldUp 0 (InitPlayer screenWidth screenHeight rand who heap).
Proof.
  unfold InitPlayer. cbv zeta.
  change (State_eqb (currentState (obj ?v)) STATE_IDLE) with true.
  cbv iota.
  change (PlayerEnterIdle rand ?v)
    with (runHook (PlayerEntry screenWidth screenHeight rand STATE_IDLE) v).
  match goal with
  | |- heldUp _ (runHook _ ?v) =>
      destruct (entry_hook_keeps screenWidth screenHeight rand STATE_IDLE v)
        as (Hc & _);
      destruct (entry_hook_frame screenWidth screenHeight rand
                  STATE_IDLE v ltac:(discriminate)) as (_ & Hh & Hst & _)
  end.
  unfold heldUp. rewrite Hc, Hh, Hst. cbn.
  split; [left; reflexivity|]. split; [reflexivity|].
  unfold MOVE_STAMINA_COST. reflexivity.
Qed.

(** Offering "up" puts an idle or up-moving player in MOVING_UP and
    costs nothing. *)
Lemma dispatch_move_up (w : World) :
  currentState (obj w) = STATE_IDLE \/ currentState (obj w) = STATE_MOVING_UP ->
  currentState (obj (dispatch w EVENT_MOVE_UP)) = STATE_MOVING_UP
  /\ health (obj (dispatch w EVENT_MOVE_UP)) = health (obj w)
  /\ stamina (player (dispatch w EVENT_MOVE_UP)) = stamina (player w).
Proof.
  intro Hs. open_world w. destruct Hs; subst; run; repeat split.
Qed.

(** One tick of movement with stamina and health left. *)
Lemma walking_tick_alive (w : World) :
  currentState (obj w) = STATE_MOVING_UP ->
  0 < stamina (player w) - MOVE_STAMINA_COST ->
  0 < health (obj w) ->
  (currentState (obj (tick w)) = STATE_IDLE
   \/ currentState (obj (tick w)) = STATE_MOVING_UP)
  /\ health (obj (tick w)) = health (obj w)
  /\ stamina (player (tick w)) = stamina (player w) - MOVE_STAMINA_COST.
Proof.
  intros Hs Hm Hh. apply Qleb_gt in Hh.
  rewrite Tick_walking by (rewrite Hs; reflexivity).
  rewrite PlayerUpdateWalking_moving by exact Hm.
  cbv zeta. rewrite Hh.
  match goal with
  | |- context [walkingStride _ _ _ ?v] =>
      destruct (walkingStride_spec screenWidth screenHeight UpdateAnimation v)
        as (_ & _ & _ & Hc & Hhp & Hst & _);
      set (w1 := walkingStride screenWidth screenHeight UpdateAnimation v) in *
  end.
  destruct (_ >=? _)%Z.
  - destruct (ChangeState_Internal_control screenWidth screenHeight rand
                w1 STATE_IDLE) as (-> & _).
    destruct (ChangeState_frame_idle screenWidth screenHeight rand Internal w1)
      as (_ & -> & -> & _).
    split; [left; reflexivity|]. split; [exact Hhp | exact Hst].
  - split; [right; rewrite Hc; exact Hs|]. split; [exact Hhp | exact Hst].
Qed.

Lemma rounds_S (e : Event) (n : nat) (w : World) :
  rounds screenWidth screenHeight rand UpdateAnimation e (S n) w
  = round screenWidth screenHeight rand UpdateAnimation e
      (rounds screenWidth screenHeight rand UpdateAnimation e n w).
Proof. reflexivity. Qed.

Lemma heldUp_round (k : nat) (w : World) :
  (S k < 2000)%nat -> heldUp k w ->
  heldUp (S k) (round screenWidth screenHeight rand UpdateAnimation
                  EVENT_MOVE_UP w).
Proof.
  intros Hk (Hs & Hh & Hst). unfold round.
  destruct (dispatch_move_up w Hs) as (Hs1 & Hh1 & Hst1).
  assert (Hk' : inject_Z (Z.of_nat (S k)) <= 1999).
  { change 1999 with (inject_Z 1999). rewrite <- Zle_Qle. lia. }
  assert (Hsk : inject_Z (Z.of_nat (S k)) == inject_Z (Z.of_nat k) + 1).
  { rewrite Nat2Z.inj_succ. unfold Z.succ. rewrite inject_Z_plus. reflexivity. }
  assert (Hm : 0 < stamina (player (dispatch w EVENT_MOVE_UP))
                   - MOVE_STAMINA_COST).
  { rewrite Hst1, Hst. unfold MOVE_STAMINA_COST. lra. }
  destruct (walking_tick_alive _ Hs1 Hm) as (Hs2 & Hh2 & Hst2).
  { rewrite Hh1. exact Hh. }
  unfold heldUp. split; [exact Hs2|]. split.
  - rewrite Hh2, Hh1. exact Hh.
  - rewrite Hst2, Hst1, Hst, Hsk. unfold MOVE_STAMINA_COST. lra.
Qed.

Lemma heldUp_rounds (who : string) (heap : Player) (k : nat) :
  (k < 2000)%nat ->
  heldUp k (rounds screenWidth screenHeight rand UpdateAnimation EVENT_MOVE_UP
              k (InitPlayer screenWidth screenHeight rand who heap)).
Proof.
  induction k as [|k IH]; intro Hk.
  - apply InitPlayer_heldUp.
  - cbn [rounds]. apply heldUp_round; [exact Hk|]. apply IH. lia.
Qed.

(** The round that spends the last of the stamina: the walking update
    resets the pool to exactly 0 and the player is idle. *)
Lemma heldUp_exhausted (w : World) :
  heldUp 1999 w ->
  let w' := round screenWidth screenHeight rand UpdateAnimation
              EVENT_MOVE_UP w in
  currentState (obj w') = STATE_IDLE /\ stamina (player w') = 0.
Proof.
  intros (Hs & Hh & Hst) w'. subst w'. unfold round.
  destruct (dispatch_move_up w Hs) as (Hs1 & Hh1 & Hst1).
  assert (Hm : stamina (player (dispatch w EVENT_MOVE_UP))
               - MOVE_STAMINA_COST <= 0).
  { rewrite Hst1, Hst. unfold MOVE_STAMINA_COST.
    change (inject_Z (Z.of_nat 1999)) with 1999. lra. }
  apply (walking_tick_exhausted screenWidth screenHeight rand UpdateAnimation);
    [rewrite Hs1; reflexivity | exact Hm].
Qed.

(** C2 (what the code does).  Starting from any freshly built player and
    under any environment, hold "up" for 2000 rounds, then raise the
    shield: this world is reachable, the player is in SHIELD with stamina
    exactly 0, inside [0, 100]; the SHIELD tick that follows leaves
    stamina at 0 - 0.05, below 0, in a world that is reachable as well. *)
Theorem shield_tick_breaks_stamina_floor (who : string) (heap : Player) :
  let w := dispatch
             (rounds screenWidth screenHeight rand UpdateAnimation
                EVENT_MOVE_UP 2000
                (InitPlayer screenWidth screenHeight rand who heap))
             EVENT_SHIELD in
  reachable screenWidth screenHeight rand UpdateAnimation w
  /\ currentState (obj w) = STATE_SHIELD
  /\ stamina (player w) = 0
  /\ reachable screenWidth screenHeight rand UpdateAnimation (tick w)
  /\ stamina (player (tick w)) = 0 - 0.05
  /\ stamina (player (tick w)) < 0.
Proof.
  intro w.
  assert (Hr : reachable screenWidth screenHeight rand UpdateAnimation w).
  { apply reach_dispatch; [|discriminate].
    apply reachable_rounds; [discriminate|]. apply reach_init. }
  pose proof (heldUp_rounds who heap 1999) as H1999.
  destruct (heldUp_exhausted _ (H1999 ltac:(lia))) as (Hidle & Hzero).
  rewrite <- rounds_S in Hidle, Hzero.
  set (w0 := rounds screenWidth screenHeight rand UpdateAnimation
               EVENT_MOVE_UP 2000
               (InitPlayer screenWidth screenHeight rand who heap)) in *.
  assert (Hshield : currentState (obj w) = STATE_SHIELD
                    /\ stamina (player w) = stamina (player w0)).
  { subst w. clearbody w0. clear - Hidle. open_world w0. subst.
    run. split; reflexivity. }
  destruct Hshield as (Hs & Hst).
  split; [exact Hr|]. split; [exact Hs|]. split; [congruence|].
  split; [apply reach_tick; exact Hr|].
  assert (Hafter : stamina (player (tick w)) = 0 - 0.05).
  { rewrite shield_tick_stamina by exact Hs. rewrite Hst, Hzero. reflexivity. }
  split; [exact Hafter|]. rewrite Hafter. reflexivity.
Qed.

(** *** The pools on the other updates, and the lives *)

Lemma fminf_le_r (a b : Q) : fminf a b <= b.
Proof.
  unfold fminf. destruct (Qleb a b) eqn:E.
  - apply Qleb_le. exact E.
  - apply Qle_refl.
Qed.

(** What the other updates do with the pools: an IDLE tick never raises
    stamina or mana above the maximum ... *)
Lemma idle_tick_ceiling (w : World) :
  currentState (obj w) = STATE_IDLE ->
  stamina (player (tick w)) <= MAX_STAMINA
  /\ mana (player (tick w)) <= MAX_MANA.
Proof.
  intro Hs. rewrite Tick_idle by exact Hs.
  open_world w. run_update. split; apply fminf_le_r.
Qed.

(** ... a WALKING/MOVING_* tick never leaves stamina below 0 ... *)
Lemma walking_tick_floor (w : World) :
  usesWalkingUpdate (currentState (obj w)) = true ->
  0 <= stamina (player (tick w)).
Proof.
  intro Hs.
  destruct (Qlt_le_dec 0 (stamina (player w) - MOVE_STAMINA_COST)) as [Hm|Hm].
  - rewrite Tick_walking by exact Hs.
    rewrite PlayerUpdateWalking_moving by exact Hm. cbv zeta.
    match goal with
    | |- context [walkingStride _ _ _ ?v] =>
        destruct (walkingStride_spec screenWidth screenHeight
                    UpdateAnimation v) as (_ & _ & _ & _ & _ & Hst & _);
        set (w1 := walkingStride screenWidth screenHeight UpdateAnimation v)
          in *
    end.
    assert (H1 : 0 <= stamina (player w1))
      by (rewrite Hst; apply Qlt_le_weak; exact Hm).
    destruct (Qleb (health (obj w)) 0);
      match goal with
      | |- context [if ?c then _ else _] => destruct c
      end;
      repeat match goal with
      | |- context [ChangeState _ _ _ Internal ?v STATE_IDLE] =>
          destruct (ChangeState_frame_idle screenWidth screenHeight rand
                      Internal v) as (_ & _ & -> & _)
      | |- context [ChangeState _ _ _ Internal ?v STATE_DEAD] =>
          destruct (ChangeState_frame_dead screenWidth screenHeight rand
                      Internal v) as (_ & _ & -> & _)
      end;
      exact H1.
  - destruct (walking_tick_exhausted screenWidth screenHeight rand
                UpdateAnimation w Hs Hm) as (_ & ->).
    apply Qle_refl.
Qed.

(** ... and an ATTACKING tick never leaves mana below 0. *)
Lemma attacking_tick_floor (w : World) :
  currentState (obj w) = STATE_ATTACKING ->
  0 <= mana (player (tick w)).
Proof.
  intro Hs. rewrite Tick_attacking by exact Hs.
  destruct (Qlt_le_dec 0 (mana (player w) - ATTACK_MANA_COST)) as [Hm|Hm].
  - rewrite PlayerUpdateAttacking_continues by exact Hm.
    apply Qlt_le_weak. exact Hm.
  - rewrite PlayerUpdateAttacking_depleted by exact Hm.
    destruct (ChangeState_frame_idle screenWidth screenHeight rand Internal
                (set_mana 0 (log "-> UPDATE -> Attacking" w)))
      as (_ & _ & _ & ->).
    apply Qle_refl.
Qed.

(** The lives after a chain of transitions are the lives before it. *)
Ltac through_transitions := rewrite ?ChangeState_lives.

Lemma dispatch_lives (w : World) (e : Event) :
  lives (player (dispatch w e)) = lives (player w).
Proof.
  unfold Dispatch.
  destruct (currentState (obj w));
    cbv beta iota delta [InitPlayerFSM movingConfig EMPTY_STATE_CONFIG
                         HandleEvent];
    try reflexivity;
    destruct e;
    cbv beta iota zeta delta [PlayerIdleHandleEvent PlayerWalkingHandleEvent
                         PlayerAttackingHandleEvent PlayerDieHandleEvent
                         PlayerRespawnHandleEvent PlayerShieldHandleEvent];
    through_transitions; reflexivity.
Qed.

Lemma walkingStride_lives (v : World) :
  lives (player (walkingStride screenWidth screenHeight UpdateAnimation v))
  = lives (player v).
Proof.
  open_world v. destruct cur; run_update; reflexivity.
Qed.

Lemma tick_lives (w : World) :
  currentState (obj w) <> STATE_DEAD ->
  lives (player (tick w)) = lives (player w).
Proof.
  intro Hw.
  destruct (usesWalkingUpdate (currentState (obj w))) eqn:Hwalk.
  { rewrite Tick_walking by exact Hwalk.
    rewrite PlayerUpdateWalking_eq. cbv zeta.
    repeat match goal with
    | |- context [if ?c then _ else _] => destruct c
    end;
      through_transitions; rewrite ?walkingStride_lives; reflexivity. }
  destruct (currentState (obj w)) eqn:Hs; try discriminate Hwalk;
    try congruence.
  - rewrite Tick_idle by exact Hs. reflexivity.
  - rewrite Tick_attacking by exact Hs.
    rewrite PlayerUpdateAttacking_eq. cbv zeta.
    destruct (Qleb _ _); through_transitions; reflexivity.
  - rewrite Tick_shield by exact Hs.
    rewrite PlayerUpdateShield_eq. cbv zeta. rewrite player_emit.
    destruct (Qleb _ _); through_transitions; reflexivity.
  - rewrite Tick_respawn by exact Hs.
    rewrite PlayerUpdateRespawn_eq. cbv zeta.
    destruct (_ >=? _)%Z; through_transitions; reflexivity.
  - rewrite Tick_collision by exact Hs. reflexivity.
Qed.

Lemma dead_tick_lives (w : World) :
  currentState (obj w) = STATE_DEAD ->
  (1 <= lives (player w) <= 4)%Z ->
  (1 <= lives (player (tick w)) <= 4)%Z.
Proof.
  intros Hs Hl.
  rewrite Tick_dead by exact Hs.
  rewrite PlayerUpdateDie_eq. cbv zeta.
  destruct (_ >=? _)%Z; [|exact Hl].
  destruct (lives (player w) - 1 >? 0)%Z eqn:Hgt; through_transitions.
  - apply Z.gtb_lt in Hgt. cbn. lia.
  - cbn. lia.
Qed.

(** In every reachable world the lives lie between 1 and 4: the decrement
    in [PlayerUpdateDie] never leaves the range of [int]. *)
Lemma reachable_lives (w : World) :
  reachable screenWidth screenHeight rand UpdateAnimation w ->
  (1 <= lives (player w) <= 4)%Z.
Proof.
  induction 1 as [who heap | w e Hr IH He | w Hr IH].
  - unfold InitPlayer. cbv zeta.
    change (State_eqb (currentState (obj ?v)) STATE_IDLE) with true.
    cbv iota.
    change (PlayerEnterIdle rand ?v)
      with (runHook (PlayerEntry screenWidth screenHeight rand STATE_IDLE) v).
    match goal with
    | |- context [runHook _ ?v] =>
        destruct (entry_hook_keeps screenWidth screenHeight rand
                    STATE_IDLE v) as (_ & _ & _ & _ & -> & _)
    end.
    cbn. lia.
  - rewrite dispatch_lives. exact IH.
  - destruct (State_eqb (currentState (obj w)) STATE_DEAD) eqn:Hd.
    + apply State_eqb_eq in Hd. apply dead_tick_lives; assumption.
    + rewrite tick_lives; [exact IH|].
      intro Hs. apply State_eqb_eq in Hs. congruence.
Qed.

End Claims.

(** ** The claims on a concrete player

    Each theorem above that carries a hypothesis is applied here to one of
    the example worlds, on an 800 by 600 screen; the two statements of the
    specification that the program does not satisfy are refuted on a
    concrete world. *)

(** C1 on the idle player: "move up" leads to MOVING_UP, RESPAWN changes
    nothing. *)
Lemma idle_dispatch_table_witness :
  currentState (obj demoIdle) = STATE_IDLE
  /\ currentState (obj (demoDispatch demoIdle EVENT_MOVE_UP)) = STATE_MOVING_UP
  /\ demoDispatch demoIdle EVENT_RESPAWN = demoIdle.
Proof.
  split; [reflexivity|].
  destruct (idle_dispatch_table 800 600 demoRand demoAnimator demoIdle
              EVENT_MOVE_UP eq_refl) as [[Hto _] _].
  destruct (idle_dispatch_table 800 600 demoRand demoAnimator demoIdle
              EVENT_RESPAWN eq_refl) as [_ Hsame].
  split; [exact Hto | exact (Hsame eq_refl)].
Defined.

(** C4 on an attacker with mana 0.5 (depleted) and on one with full mana
    (the attack goes on). *)
Lemma attacking_tick_witness :
  currentState (obj demoAttacker) = STATE_ATTACKING
  /\ mana (player demoAttacker) == 0.5
  /\ mana (player (demoTick demoAttacker)) = 0
  /\ currentState (obj (demoTick demoAttacker)) = STATE_IDLE
  /\ 0 < mana (player demoStriking) - ATTACK_MANA_COST
  /\ mana (player (demoTick demoStriking)) = 100.0 - 1.0
  /\ currentState (obj (demoTick demoStriking)) = STATE_ATTACKING.
Proof.
  split; [reflexivity|]. split; [reflexivity|].
  destruct (attacking_tick 800 600 demoRand demoAnimator demoAttacker eq_refl)
    as (_ & _ & Hhalf).
  destruct (Hhalf (Qeq_refl 0.5)) as (Hzero & Hidle).
  split; [exact Hzero|]. split; [exact Hidle|].
  assert (Hs : currentState (obj demoStriking) = STATE_ATTACKING)
    by (vm_compute; reflexivity).
  assert (Hm : 0 < mana (player demoStriking) - ATTACK_MANA_COST)
    by (vm_compute; reflexivity).
  split; [exact Hm|].
  destruct (attacking_tick 800 600 demoRand demoAnimator demoStriking Hs)
    as (_ & Hgoes & _).
  destruct (Hgoes Hm) as (Hkept & Hstays & _).
  split; [exact Hkept | exact Hstays].
Defined.

(** C5, as amended, on the tired player. *)
Lemma walking_tick_depleted_witness :
  usesWalkingUpdate (currentState (obj demoTired)) = true
  /\ stamina (player demoTired) - MOVE_STAMINA_COST <= 0
  /\ stamina (player (demoTick demoTired)) = 0
  /\ currentState (obj (demoTick demoTired)) = STATE_IDLE
  /\ position (obj (demoTick demoTired)) = position (obj demoTired).
Proof.
  assert (Hm : stamina (player demoTired) - MOVE_STAMINA_COST <= 0)
    by (vm_compute; discriminate).
  split; [reflexivity|]. split; [exact Hm|].
  destruct (walking_tick_depleted 800 600 demoRand demoAnimator demoTired
              eq_refl Hm) as (Hz & Hi & _ & Hp & _).
  split; [exact Hz|]. split; [exact Hi | exact Hp].
Defined.

(** C9 on a dying player whose walk reaches its last frame, 8, on this
    very tick. *)
Lemma walking_tick_death_witness :
  usesWalkingUpdate (currentState (obj demoDying)) = true
  /\ 0 < stamina (player demoDying) - MOVE_STAMINA_COST
  /\ health (obj demoDying) <= 0
  /\ currentFrame (demoAnimator (animation (obj demoDying))) = 8%Z
  /\ currentState (obj (demoTick demoDying)) = STATE_DEAD.
Proof.
  assert (Hm : 0 < stamina (player demoDying) - MOVE_STAMINA_COST)
    by reflexivity.
  assert (Hh : health (obj demoDying) <= 0) by (vm_compute; discriminate).
  split; [reflexivity|]. split; [exact Hm|]. split; [exact Hh|].
  split; [reflexivity|].
  exact (walking_tick_death 800 600 demoRand demoAnimator demoDying
           eq_refl Hm Hh).
Defined.

(** C3 on the last frame with four lives, on the last frame with one life,
    and on the first tick after death. *)
Lemma dead_tick_witness :
  currentState (obj demoLastBreath) = STATE_DEAD
  /\ lives (player demoLastBreath) = 4%Z
  /\ lives (player (demoTick demoLastBreath)) = 3%Z
  /\ currentState (obj (demoTick demoLastBreath)) = STATE_RESPAWN
  /\ lives (player demoLastLife) = 1%Z
  /\ lives (player (demoTick demoLastLife)) = 4%Z
  /\ position (obj (demoTick demoLastLife)) = spawnPoint (player demoLastLife)
  /\ currentState (obj (demoTick demoLastLife)) = STATE_IDLE
  /\ lives (player (demoTick demoDead)) = lives (player demoDead).
Proof.
  assert (Hs : currentState (obj demoLastBreath) = STATE_DEAD)
    by (vm_compute; reflexivity).
  assert (Hs1 : currentState (obj demoLastLife) = STATE_DEAD)
    by (vm_compute; reflexivity).
  assert (Hs0 : currentState (obj demoDead) = STATE_DEAD)
    by (vm_compute; reflexivity).
  split; [exact Hs|]. split; [vm_compute; reflexivity|].
  destruct (dead_tick 800 600 demoRand demoAnimator demoLastBreath Hs)
    as (Hfinal & _).
  destruct Hfinal as (Hleft & _); [vm_compute; discriminate|].
  destruct Hleft as (Hl & Hr & _); [vm_compute; reflexivity|].
  split; [exact Hl|]. split; [exact Hr|].
  split; [vm_compute; reflexivity|].
  destruct (dead_tick 800 600 demoRand demoAnimator demoLastLife Hs1)
    as (Hfinal1 & _).
  destruct Hfinal1 as (_ & Hnone); [vm_compute; discriminate|].
  destruct Hnone as (Hl1 & Hp1 & Hi1 & _); [vm_compute; discriminate|].
  split; [exact Hl1|]. split; [exact Hp1|]. split; [exact Hi1|].
  destruct (dead_tick 800 600 demoRand demoAnimator demoDead Hs0)
    as (_ & Hearlier).
  destruct Hearlier as (Hl0 & _); [vm_compute; reflexivity|].
  exact Hl0.
Defined.

(** C6 at the left edge of an 800 by 600 screen: the step to the right
    from x = 10 ends inside, on both axes.  On a screen 800 wide and only
    50 high the same step still ends with x at least 32. *)
Lemma walking_tick_within_screen_witness :
  usesWalkingUpdate (currentState (obj demoAtEdge)) = true
  /\ 0 < stamina (player demoAtEdge) - MOVE_STAMINA_COST
  /\ (64 <= 800)%Z /\ (64 <= 600)%Z
  /\ 32 <= vx (position (obj (demoTick demoAtEdge))) <= inject_Z 800 - 32
  /\ 32 <= vy (position (obj (demoTick demoAtEdge))) <= inject_Z 600 - 32
  /\ c2_p (collider (obj (demoTick demoAtEdge)))
     = position (obj (demoTick demoAtEdge))
  /\ 32 <= vx (position (obj (Tick 800 50 demoRand demoAnimator demoAtEdge)))
     <= inject_Z 800 - 32.
Proof.
  assert (Hm : 0 < stamina (player demoAtEdge) - MOVE_STAMINA_COST)
    by reflexivity.
  assert (Hw : (64 <= 800)%Z) by lia.
  assert (Hh : (64 <= 600)%Z) by lia.
  split; [reflexivity|]. split; [exact Hm|]. split; [exact Hw|].
  split; [exact Hh|].
  destruct (walking_tick_within_screen 800 600 demoRand demoAnimator
              demoAtEdge eq_refl Hm) as (Hc & Hux & Huy & Hlx & Hly).
  split; [split; [exact (Hlx Hw) | exact Hux]|].
  split; [split; [exact (Hly Hh) | exact Huy]|].
  split; [exact Hc|].
  destruct (walking_tick_within_screen 800 50 demoRand demoAnimator
              demoAtEdge eq_refl Hm) as (_ & Hux' & _ & Hlx' & _).
  split; [exact (Hlx' Hw) | exact Hux'].
Defined.

(** C8 on a player moving up and to the left at speed 2. *)
Lemma walking_tick_direction_witness :
  0 < stamina (player demoDiagonal) - MOVE_STAMINA_COST
  /\ isDiagonal (currentState (obj demoDiagonal)) = true
  /\ halfOnBothAxes (moveDirectionOf STATE_MOVING_UP_LEFT 2) 2
  /\ vx (moveDirectionOf STATE_MOVING_UP_LEFT 2) == - (2 / 2)
  /\ vy (moveDirectionOf STATE_MOVING_UP_LEFT 2) == - (2 / 2)
  /\ lastDirection (obj (demoTick demoDiagonal))
     = lastDirection (obj demoDiagonal).
Proof.
  assert (Hm : 0 < stamina (player demoDiagonal) - MOVE_STAMINA_COST)
    by reflexivity.
  split; [exact Hm|]. split; [reflexivity|].
  destruct (walking_tick_direction 800 600 demoRand demoAnimator demoDiagonal
              Hm) as (_ & Hdiag & Hd).
  destruct (Hdiag eq_refl) as (Hhalf & Hkeep).
  destruct (Hd (or_intror eq_refl)) as (Hx & Hy & _).
  split; [exact Hhalf|]. split; [exact Hx|]. split; [exact Hy|]. exact Hkeep.
Defined.

(** C10 on the validated transition from DEAD to RESPAWN, on an 800 by
    600 screen: the player is at (400, 300). *)
Lemma respawn_entry_refills_witness :
  TransitionAllowed (currentState (obj demoLastBreath)) STATE_RESPAWN = true
  /\ refilledAtCentre 800 600
       (ChangeState 800 600 demoRand External demoLastBreath STATE_RESPAWN)
  /\ vx (position (obj (ChangeState 800 600 demoRand External demoLastBreath
                          STATE_RESPAWN))) == 400
  /\ vy (position (obj (ChangeState 800 600 demoRand External demoLastBreath
                          STATE_RESPAWN))) == 300.
Proof.
  assert (Ht : TransitionAllowed (currentState (obj demoLastBreath))
                 STATE_RESPAWN = true) by (vm_compute; reflexivity).
  split; [exact Ht|].
  destruct (respawn_entry_refills 800 600 demoRand demoLastBreath)
    as (_ & _ & Hevery).
  pose proof (proj2 (Hevery External (or_intror Ht))) as Hin.
  split; [exact Hin|].
  destruct Hin as ((Hx & Hy) & _).
  split.
  - apply (Qeq_trans _ _ _ Hx). reflexivity.
  - apply (Qeq_trans _ _ _ Hy). reflexivity.
Defined.

(** C7 on a shielding player who receives "move left", then three ticks. *)
Lemma shield_dispatch_table_witness :
  currentState (obj demoShielded) = STATE_SHIELD
  /\ shieldActive (player demoShielded) = true
  /\ currentState (obj (demoDispatch demoShielded EVENT_MOVE_LEFT)) = STATE_IDLE
  /\ shieldActive (player (demoDispatch demoShielded EVENT_MOVE_LEFT)) = false
  /\ shieldActive
       (player (demoTicks 3 (demoDispatch demoShielded EVENT_MOVE_LEFT)))
     = false.
Proof.
  assert (Hs : currentState (obj demoShielded) = STATE_SHIELD)
    by (vm_compute; reflexivity).
  split; [exact Hs|]. split; [vm_compute; reflexivity|].
  destruct (shield_dispatch_table 800 600 demoRand demoAnimator demoShielded
              EVENT_MOVE_LEFT Hs) as ((Hto & _) & Hout).
  destruct Hout as (Hoff & _ & Hlater); [discriminate|].
  split; [exact Hto|]. split; [exact Hoff|].
  exact (proj1 (Hlater 3%nat)).
Defined.

(** C5 as stated fails.  A player moving up with 0.03 stamina and the
    walk on frame 3 runs out of stamina on the tick; the tick ends with the
    cursor on frame 0 of an 8-frame idle sequence, so the animation cursor
    is not unchanged. *)
Lemma walking_depletion_replaces_cursor :
  usesWalkingUpdate (currentState (obj demoTired)) = true
  /\ stamina (player demoTired) - MOVE_STAMINA_COST <= 0
  /\ currentFrame (animation (obj demoTired)) = 3%Z
  /\ currentFrame (animation (obj (demoTick demoTired))) = 0%Z
  /\ animation (obj (demoTick demoTired)) <> animation (obj demoTired).
Proof.
  split; [reflexivity|]. split; [vm_compute; discriminate|].
  split; [reflexivity|]. split; [vm_compute; reflexivity|].
  vm_compute. discriminate.
Qed.

(** ** Further properties: the other handlers *)

Section Handlers.

Variables screenWidth screenHeight : Z.
Variable rand : nat -> Z.
Variable UpdateAnimation : Animation -> Animation.

Local Abbreviation dispatch :=
  (Dispatch screenWidth screenHeight rand UpdateAnimation).
Local Abbreviation changeState :=
  (ChangeState screenWidth screenHeight rand).



(** While attacking, only NONE (to IDLE) and DIE (to DEAD) are acted on;
    movement, attack, defend and shield events do not interrupt. *)
Theorem attacking_dispatch_table (w : World) (e : Event) :
  currentState (obj w) = STATE_ATTACKING ->
  realises STATE_ATTACKING (attackingReaction e) w (dispatch w e).
Proof.
  intro Hs. open_world w. subst.
  destruct e; cbv [attackingReaction realises]; try split; run; reflexivity.
Qed.

(** In DEAD, RESPAWN and the reserved COLLISION state no event has any
    effect on the player: these states are left by ticks only. *)
Theorem deaf_states_ignore_events (w : World) (e : Event) :
  deafToEvents (currentState (obj w)) = true ->
  player (dispatch w e) = player w.
Proof.
  intro Hs. open_world w.
  destruct cur; try discriminate Hs; reflexivity.
Qed.

(** The body through a transition to a state other than RESPAWN. *)
Lemma ChangeState_body (t : Trigger) (w : World) (s : State) :
  s <> STATE_RESPAWN -> body (changeState t w s) = body w.
Proof.
  intro Hs.
  assert (forced : body (changeState Internal w s) = body w).
  { rewrite ChangeState_Internal_eq. cbv zeta.
    set (left := runHook (PlayerExit (currentState (obj w))) w).
    assert (Hleft : body left = body w).
    { subst left. open_world w. destruct cur; reflexivity. }
    rewrite <- Hleft.
    generalize left. clear - Hs. intro v.
    destruct s; try congruence;
      try (open_world v; run; reflexivity).
    unfold runHook, PlayerEntry, PlayerEnterIdle.
    destruct (negb _ && _); open_world v; run; reflexivity. }
  destruct t; [|exact forced].
  rewrite ChangeState_External_eq.
  destruct (TransitionAllowed _ _); [exact forced | reflexivity].
Qed.

Lemma Dispatch_body (w : World) (e : Event) : body (dispatch w e) = body w.
Proof.
  unfold Dispatch.
  destruct (currentState (obj w));
    cbv beta iota delta [InitPlayerFSM movingConfig EMPTY_STATE_CONFIG
                         HandleEvent];
    try reflexivity;
    destruct e;
    cbv beta iota zeta delta
      [PlayerIdleHandleEvent PlayerWalkingHandleEvent
       PlayerAttackingHandleEvent PlayerDieHandleEvent
       PlayerRespawnHandleEvent PlayerShieldHandleEvent];
    rewrite ?ChangeState_body by discriminate; reflexivity.
Qed.

(** No event, in no state, moves the player or its collider, changes its
    facing, its speed, its health, stamina or mana, its lives or its
    spawn point: an event can only change the state, the animation and
    the shield. *)
Theorem dispatch_keeps_body (w : World) (e : Event) :
  position (obj (dispatch w e)) = position (obj w)
  /\ collider (obj (dispatch w e)) = collider (obj w)
  /\ lastDirection (obj (dispatch w e)) = lastDirection (obj w)
  /\ health (obj (dispatch w e)) = health (obj w)
  /\ stamina (player (dispatch w e)) = stamina (player w)
  /\ mana (player (dispatch w e)) = mana (player w)
  /\ lives (player (dispatch w e)) = lives (player w)
  /\ spawnPoint (player (dispatch w e)) = spawnPoint (player w)
  /\ body (dispatch w e) = body w.
Proof.
  pose proof (Dispatch_body w e) as Hb.
  assert (Hc := Hb). unfold body in Hc.
  injection Hc as Hpos _ Hcol Hdir _ Hh Hst Hmn Hl Hsp.
  repeat (split; [assumption|]). exact Hb.
Qed.

(** DIE is honoured in every state that listens: from IDLE, WALKING, the
    eight MOVING_* states, ATTACKING and SHIELD the player is DEAD after
    the event, the state it left is remembered, the death sequence (6
    frames) is installed at frame 0, and the body is untouched, so no
    life is taken yet. *)
Theorem die_event_honoured (w : World) :
  canDie (currentState (obj w)) = true ->
  currentState (obj (dispatch w EVENT_DIE)) = STATE_DEAD
  /\ previousState (obj (dispatch w EVENT_DIE)) = currentState (obj w)
  /\ animation (obj (dispatch w EVENT_DIE))
     = mkAnimation (firstn 6 deadFrames) 6 0 0.2 0
  /\ lives (player (dispatch w EVENT_DIE)) = lives (player w).
Proof.
  intro Hs.
  open_world w.
  destruct cur; try discriminate Hs; clear Hs; run; repeat split.
Qed.

End Handlers.

(** ** Further properties: runs of ticks *)

(** Decides the tests of [fminf] and hands the rest to linear arithmetic. *)
Ltac fminf_cases :=
  unfold fminf;
  repeat match goal with
  | |- context [Qleb ?a ?b] =>
      lazymatch a with
      | context [Qleb] => fail
      | _ => destruct (Qleb a b) eqn:?
      end
  end;
  repeat match goal with
  | H : Qleb _ _ = true |- _ => apply Qleb_le in H
  | H : Qleb _ _ = false |- _ => apply Qleb_gt in H
  end;
  try lra.

Lemma fminf_regen (a k m : Q) :
  0 <= k -> fminf (fminf a m + k) m == fminf (a + k) m.
Proof. intro Hk. fminf_cases. Qed.

Lemma fminf_compat (a b m : Q) : a == b -> fminf a m == fminf b m.
Proof. intro E. fminf_cases. Qed.

Lemma fminf_full (a m : Q) : m <= a -> fminf a m == m.
Proof. intro H. fminf_cases. Qed.

Lemma inject_nat_succ (n : nat) :
  inject_Z (Z.of_nat (S n)) == inject_Z (Z.of_nat n) + 1.
Proof.
  rewrite Nat2Z.inj_succ. unfold Z.succ. rewrite inject_Z_plus. reflexivity.
Qed.

Lemma inject_nat_nonneg (n : nat) : 0 <= inject_Z (Z.of_nat n).
Proof.
  change 0 with (inject_Z 0). rewrite <- Zle_Qle. apply Nat2Z.is_nonneg.
Qed.

Section Runs.

Variables screenWidth screenHeight : Z.
Variable rand : nat -> Z.
Variable UpdateAnimation : Animation -> Animation.

Local Abbreviation dispatch :=
  (Dispatch screenWidth screenHeight rand UpdateAnimation).
Local Abbreviation tick :=
  (Tick screenWidth screenHeight rand UpdateAnimation).
Local Abbreviation ticksOf :=
  (ticks screenWidth screenHeight rand UpdateAnimation).
Local Abbreviation changeState :=
  (ChangeState screenWidth screenHeight rand).

(** One idle tick. *)
Lemma idle_tick_step (w : World) :
  currentState (obj w) = STATE_IDLE ->
  currentState (obj (tick w)) = STATE_IDLE
  /\ stamina (player (tick w))
     = fminf (stamina (player w) + REGEN_RATE) MAX_STAMINA
  /\ mana (player (tick w)) = fminf (mana (player w) + REGEN_RATE) MAX_MANA
  /\ position (obj (tick w)) = position (obj w)
  /\ health (obj (tick w)) = health (obj w)
  /\ lives (player (tick w)) = lives (player w).
Proof.
  intro Hs. rewrite (Tick_idle _ _ _ _ _ Hs).
  open_world w. run_update. repeat split. exact Hs.
Qed.

(** Idle regeneration in closed form: after [n + 1] idle ticks without
    events the player is still idle, where it was, and each of stamina
    and mana is the smaller of 100 and the start value plus half a point
    per tick.  In particular a pool is full as soon as the start value
    plus the regenerated amount reaches 100 (200 ticks from an empty
    pool), and a pool above 100 is cut back to 100 by the first tick. *)
Theorem idle_ticks_regenerate (n : nat) :
  forall w : World,
    currentState (obj w) = STATE_IDLE ->
    let gained := inject_Z (Z.of_nat (S n)) * REGEN_RATE in
    let w' := ticksOf (S n) w in
    currentState (obj w') = STATE_IDLE
    /\ position (obj w') = position (obj w)
    /\ lives (player w') = lives (player w)
    /\ stamina (player w') == fminf (stamina (player w) + gained) MAX_STAMINA
    /\ mana (player w') == fminf (mana (player w) + gained) MAX_MANA
    /\ (MAX_STAMINA <= stamina (player w) + gained ->
        stamina (player w') == MAX_STAMINA)
    /\ (MAX_MANA <= mana (player w) + gained -> mana (player w') == MAX_MANA).
Proof.
  assert (closed : forall k w,
    currentState (obj w) = STATE_IDLE ->
    currentState (obj (ticksOf (S k) w)) = STATE_IDLE
    /\ position (obj (ticksOf (S k) w)) = position (obj w)
    /\ lives (player (ticksOf (S k) w)) = lives (player w)
    /\ stamina (player (ticksOf (S k) w))
       == fminf (stamina (player w)
                 + inject_Z (Z.of_nat (S k)) * REGEN_RATE) MAX_STAMINA
    /\ mana (player (ticksOf (S k) w))
       == fminf (mana (player w)
                 + inject_Z (Z.of_nat (S k)) * REGEN_RATE) MAX_MANA).
  { induction k as [|k IH]; intros w Hs;
      destruct (idle_tick_step w Hs) as (Hs1 & Hst & Hmn & Hp & _ & Hl).
    - cbn [ticks]. rewrite Hst, Hmn.
      repeat (split; [assumption|]).
      split; apply fminf_compat; change (inject_Z (Z.of_nat 1)) with 1; lra.
    - change (ticksOf (S (S k)) w) with (ticksOf (S k) (tick w)).
      destruct (IH (tick w) Hs1) as (Hs2 & Hp2 & Hl2 & Hst2 & Hmn2).
      split; [exact Hs2|]. split; [congruence|]. split; [congruence|].
      pose proof (inject_nat_nonneg (S k)) as Hk.
      pose proof (inject_nat_succ (S k)) as Hsk.
      split.
      + rewrite Hst2, Hst.
        rewrite fminf_regen by (unfold REGEN_RATE; lra).
        apply fminf_compat. rewrite Hsk. unfold REGEN_RATE. lra.
      + rewrite Hmn2, Hmn.
        rewrite fminf_regen by (unfold REGEN_RATE; lra).
        apply fminf_compat. rewrite Hsk. unfold REGEN_RATE. lra. }
  intros w Hs gained w'. subst gained w'.
  destruct (closed n w Hs) as (H1 & H2 & H3 & H4 & H5).
  repeat (split; [assumption|]).
  split; intro Hfull.
  - rewrite H4. apply fminf_full. exact Hfull.
  - rewrite H5. apply fminf_full. exact Hfull.
Qed.

(** An attack lasts as long as the mana: no event arriving, the player
    is still attacking after [n] ticks whenever [n] is below the mana it
    started with, having paid one point per tick, whatever the animation
    does; and the tick on which the remaining mana is at most 1 ends the
    attack in IDLE with mana 0. *)
Theorem attacking_ticks_duration (n : nat) :
  forall w : World,
    currentState (obj w) = STATE_ATTACKING ->
    inject_Z (Z.of_nat n) < mana (player w) ->
    currentState (obj (ticksOf n w)) = STATE_ATTACKING
    /\ mana (player (ticksOf n w))
       == mana (player w) - inject_Z (Z.of_nat n)
    /\ (mana (player w) <= inject_Z (Z.of_nat (S n)) ->
        currentState (obj (tick (ticksOf n w))) = STATE_IDLE
        /\ mana (player (tick (ticksOf n w))) = 0).
Proof.
  induction n as [|n IH]; intros w Hs Hm.
  - cbn [ticks]. split; [exact Hs|].
    split; [change (inject_Z (Z.of_nat 0)) with 0; lra|].
    intro Hlast. change (inject_Z (Z.of_nat 1)) with 1 in Hlast.
    rewrite (Tick_attacking _ _ _ _ _ Hs).
    rewrite PlayerUpdateAttacking_depleted
      by (unfold ATTACK_MANA_COST; lra).
    split; [apply ChangeState_Internal_control|].
    destruct (ChangeState_frame_idle screenWidth screenHeight rand Internal
                (set_mana 0 (log "-> UPDATE -> Attacking" w)))
      as (_ & _ & _ & ->).
    reflexivity.
  - change (ticksOf (S n) w) with (ticksOf n (tick w)).
    pose proof (inject_nat_succ n) as Hsn.
    pose proof (inject_nat_succ (S n)) as Hssn.
    pose proof (inject_nat_nonneg n) as Hn.
    assert (Hgo : 0 < mana (player w) - ATTACK_MANA_COST)
      by (unfold ATTACK_MANA_COST; lra).
    assert (Hstep : currentState (obj (tick w)) = STATE_ATTACKING
                    /\ mana (player (tick w))
                       = mana (player w) - ATTACK_MANA_COST).
    { rewrite (Tick_attacking _ _ _ _ _ Hs).
      rewrite PlayerUpdateAttacking_continues by exact Hgo.
      split; [exact Hs | reflexivity]. }
    destruct Hstep as (Hs1 & Hm1).
    destruct (IH (tick w) Hs1) as (Hs2 & Hm2 & Hend).
    { rewrite Hm1. unfold ATTACK_MANA_COST. lra. }
    split; [exact Hs2|]. split.
    + rewrite Hm2, Hm1. unfold ATTACK_MANA_COST. lra.
    + intro Hlast. apply Hend. rewrite Hm1. unfold ATTACK_MANA_COST. lra.
Qed.

End Runs.

(** ** Further properties: movement, death and respawn *)

Lemma clampAxis_inside (extent : Z) (c : Q) :
  PLAYER_RADIUS <= c <= inject_Z extent - PLAYER_RADIUS ->
  clampAxis extent c = c.
Proof.
  intros [Hlo Hhi]. unfold clampAxis.
  apply Qltb_ge in Hlo. rewrite Hlo.
  apply Qltb_ge in Hhi. rewrite Hhi. reflexivity.
Qed.

Section Movement.

Variables screenWidth screenHeight : Z.
Variable rand : nat -> Z.
Variable UpdateAnimation : Animation -> Animation.

Local Abbreviation tick :=
  (Tick screenWidth screenHeight rand UpdateAnimation).
Local Abbreviation changeState :=
  (ChangeState screenWidth screenHeight rand).
Local Abbreviation stride :=
  (walkingStride screenWidth screenHeight UpdateAnimation).

(** The world a moving tick hands to its two final checks. *)
Lemma moving_tick_position (w : World) :
  usesWalkingUpdate (currentState (obj w)) = true ->
  0 < stamina (player w) - MOVE_STAMINA_COST ->
  let d := moveDirectionOf (currentState (obj w)) (speed (obj w)) in
  position (obj (tick w))
  = mkVector2 (clampAxis screenWidth (vx (position (obj w)) + vx d))
              (clampAxis screenHeight (vy (position (obj w)) + vy d))
  /\ lastDirection (obj (tick w))
     = (if isCardinal (currentState (obj w)) then currentState (obj w)
        else lastDirection (obj w)).
Proof.
  intros Hs Hm d.
  destruct (walking_tick_moved screenWidth screenHeight rand UpdateAnimation
              w Hs Hm) as (Hpos & _ & Hdir).
  rewrite Hpos, Hdir.
  match goal with
  | |- context [walkingStride _ _ _ ?v] =>
      destruct (walkingStride_spec screenWidth screenHeight
                  UpdateAnimation v) as (Hp & _ & Hl & _)
  end.
  split; [exact Hp | exact Hl].
Qed.

(** Movement is a fixed-length action.  A WALKING/MOVING_* tick with
    stamina left and a living player takes some stamina and leaves some;
    if the animator has brought the walk to its last frame the player is
    idle at the end of the tick, with an idle sequence installed, and
    otherwise it keeps its state and the advanced cursor. *)
Theorem walking_tick_completion (w : World) :
  usesWalkingUpdate (currentState (obj w)) = true ->
  0 < stamina (player w) - MOVE_STAMINA_COST ->
  0 < health (obj w) ->
  let cursor := UpdateAnimation (animation (obj w)) in
  0 < stamina (player (tick w)) < stamina (player w)
  /\ ((currentFrame cursor >= frameCount cursor - 1)%Z ->
      currentState (obj (tick w)) = STATE_IDLE
      /\ previousState (obj (tick w)) = currentState (obj w)
      /\ isIdleAnimation (animation (obj (tick w))))
  /\ ((currentFrame cursor < frameCount cursor - 1)%Z ->
      currentState (obj (tick w)) = currentState (obj w)
      /\ animation (obj (tick w)) = cursor).
Proof.
  intros Hs Hm Hh cursor. apply Qleb_gt in Hh.
  rewrite (Tick_walking _ _ _ _ _ Hs).
  rewrite PlayerUpdateWalking_moving by exact Hm.
  cbv zeta. rewrite Hh.
  match goal with
  | |- context [walkingStride _ _ _ ?v] =>
      destruct (walkingStride_spec screenWidth screenHeight UpdateAnimation v)
        as (_ & _ & _ & Hc & _ & Hst & Ha);
      set (w1 := walkingStride screenWidth screenHeight UpdateAnimation v)
        in *
  end.
  change (animation (obj w1) = cursor) in Ha.
  change (currentState (obj w1) = currentState (obj w)) in Hc.
  change (stamina (player w1) = stamina (player w) - MOVE_STAMINA_COST)
    in Hst.
  rewrite Ha.
  split; [|split].
  - match goal with
    | |- 0 < ?x < _ =>
        assert (Hpaid : x = stamina (player w) - MOVE_STAMINA_COST)
    end.
    { destruct (_ >=? _)%Z; [|exact Hst].
      destruct (ChangeState_frame_idle screenWidth screenHeight rand
                  Internal w1) as (_ & _ & -> & _).
      exact Hst. }
    rewrite Hpaid. unfold MOVE_STAMINA_COST in *. split; lra.
  - intro Hf. apply Z.ge_le, Z.geb_le in Hf. rewrite Hf.
    destruct (ChangeState_Internal_control screenWidth screenHeight rand
                w1 STATE_IDLE) as (-> & ->).
    split; [reflexivity|]. split; [exact Hc|].
    apply ChangeState_Internal_idle_animation.
    rewrite Hc. intro Hi. rewrite Hi in Hs. discriminate Hs.
  - intro Hf.
    assert (Hf' : (currentFrame cursor >=? frameCount cursor - 1)%Z = false)
      by (rewrite Z.geb_leb; apply Z.leb_gt; exact Hf).
    rewrite Hf'. split; [exact Hc | exact Ha].
Qed.

(** Whatever the size of the screen, a tick that moves never leaves the
    player beyond the right or the bottom edge minus the radius: the
    upper test of the clamp is the last to run. *)
Theorem walking_tick_far_edges (w : World) :
  usesWalkingUpdate (currentState (obj w)) = true ->
  0 < stamina (player w) - MOVE_STAMINA_COST ->
  vx (position (obj (tick w))) <= inject_Z screenWidth - PLAYER_RADIUS
  /\ vy (position (obj (tick w))) <= inject_Z screenHeight - PLAYER_RADIUS.
Proof.
  intros Hs Hm.
  destruct (moving_tick_position w Hs Hm) as (-> & _).
  split; apply clampAxis_upper.
Qed.

(** A step that stays inside the screen is taken as it is: when the old
    position plus the displacement lies within the bounds, that sum is
    the new position and the new centre of the collider. *)
Theorem walking_tick_free_step (w : World) :
  usesWalkingUpdate (currentState (obj w)) = true ->
  0 < stamina (player w) - MOVE_STAMINA_COST ->
  let d := moveDirectionOf (currentState (obj w)) (speed (obj w)) in
  let target := mkVector2 (vx (position (obj w)) + vx d)
                          (vy (position (obj w)) + vy d) in
  withinScreen screenWidth screenHeight target ->
  position (obj (tick w)) = target
  /\ c2_p (collider (obj (tick w))) = target.
Proof.
  intros Hs Hm d target [Hx Hy].
  destruct (walking_tick_moved screenWidth screenHeight rand UpdateAnimation
              w Hs Hm) as (Hpos & Hcol & _).
  rewrite Hpos, Hcol.
  match goal with
  | |- context [walkingStride _ _ _ ?v] =>
      destruct (walkingStride_spec screenWidth screenHeight
                  UpdateAnimation v) as (Hp & Hc & _)
  end.
  rewrite Hc, Hp.
  change (mkVector2 (clampAxis screenWidth (vx target))
                    (clampAxis screenHeight (vy target)) = target
          /\ mkVector2 (clampAxis screenWidth (vx target))
                       (clampAxis screenHeight (vy target)) = target).
  rewrite (clampAxis_inside screenWidth (vx target) Hx).
  rewrite (clampAxis_inside screenHeight (vy target) Hy).
  split; reflexivity.
Qed.

(** STATE_WALKING has no direction of its own: its tick takes the
    default branch of the switch, moves the player up by its full speed
    (through the clamp) and leaves the last direction as it was. *)
Theorem walking_state_moves_up (w : World) :
  currentState (obj w) = STATE_WALKING ->
  0 < stamina (player w) - MOVE_STAMINA_COST ->
  position (obj (tick w))
  = mkVector2 (clampAxis screenWidth (vx (position (obj w)) + 0))
              (clampAxis screenHeight
                 (vy (position (obj w)) + - speed (obj w)))
  /\ lastDirection (obj (tick w)) = lastDirection (obj w).
Proof.
  intros Hs Hm.
  destruct (moving_tick_position w) as (Hp & Hl);
    [rewrite Hs; reflexivity | exact Hm |].
  rewrite Hs in Hp, Hl. split; [exact Hp | exact Hl].
Qed.

(** A RESPAWN tick only runs the animator, and on the last frame of the
    respawn sequence hands over to IDLE: position, collider, pools,
    lives are those the entry into RESPAWN left. *)
Theorem respawn_tick (w : World) :
  currentState (obj w) = STATE_RESPAWN ->
  let cursor := UpdateAnimation (animation (obj w)) in
  body (tick w) = body w
  /\ ((currentFrame cursor >= frameCount cursor - 1)%Z ->
      currentState (obj (tick w)) = STATE_IDLE
      /\ previousState (obj (tick w)) = STATE_RESPAWN)
  /\ ((currentFrame cursor < frameCount cursor - 1)%Z ->
      currentState (obj (tick w)) = STATE_RESPAWN
      /\ animation (obj (tick w)) = cursor).
Proof.
  intros Hs cursor.
  rewrite (Tick_respawn _ _ _ _ _ Hs).
  rewrite PlayerUpdateRespawn_eq. cbv zeta.
  set (w0 := advanceAnimation UpdateAnimation (say "-> UPDATE -> Respawn" w)).
  change (animation (obj w0)) with cursor.
  assert (Hb : body w0 = body w) by reflexivity.
  split; [|split].
  - destruct (_ >=? _)%Z; [|exact Hb].
    rewrite (ChangeState_body screenWidth screenHeight rand Internal w0)
      by discriminate.
    exact Hb.
  - intro Hf. apply Z.ge_le, Z.geb_le in Hf. rewrite Hf.
    destruct (ChangeState_Internal_control screenWidth screenHeight rand
                w0 STATE_IDLE) as (-> & ->).
    split; [reflexivity | exact Hs].
  - intro Hf.
    assert (Hf' : (currentFrame cursor >=? frameCount cursor - 1)%Z = false)
      by (rewrite Z.geb_leb; apply Z.leb_gt; exact Hf).
    rewrite Hf'. split; [exact Hs | reflexivity].
Qed.

(** Death and respawn move the player without its collider.  No DEAD
    tick writes the collider; yet the tick that ends the death sequence
    puts the player at the screen centre (lives left) or at the spawn
    point (none left).  The collider stays where the player died until
    the next tick that moves. *)
Theorem dead_tick_leaves_collider (w : World) :
  currentState (obj w) = STATE_DEAD ->
  let cursor := UpdateAnimation (animation (obj w)) in
  collider (obj (tick w)) = collider (obj w)
  /\ ((currentFrame cursor >= frameCount cursor - 1)%Z ->
      position (obj (tick w))
      = (if (lives (player w) - 1 >? 0)%Z
         then screenCentre screenWidth screenHeight
         else spawnPoint (player w))).
Proof.
  intros Hs cursor.
  rewrite (Tick_dead _ _ _ _ _ Hs).
  rewrite PlayerUpdateDie_eq. cbv zeta.
  set (w0 := advanceAnimation UpdateAnimation (say "-> UPDATE -> Die" w)).
  change (animation (obj w0)) with cursor.
  split.
  - destruct (_ >=? _)%Z; [|reflexivity].
    destruct (_ >? _)%Z;
      match goal with
      | |- context [ChangeState _ _ _ Internal ?v ?s] =>
          destruct (ChangeState_keeps screenWidth screenHeight rand
                      Internal v s) as (_ & -> & _)
      end;
      reflexivity.
  - intro Hf. apply Z.ge_le, Z.geb_le in Hf. rewrite Hf.
    destruct (_ >? _)%Z.
    + apply ChangeState_Internal_respawn_position.
    + match goal with
      | |- context [ChangeState _ _ _ Internal ?v STATE_IDLE] =>
          destruct (ChangeState_frame_idle screenWidth screenHeight rand
                      Internal v) as (-> & _)
      end.
      reflexivity.
Qed.

End Movement.

(** ** Further properties: what the pools can and cannot do *)

Lemma obj_emit (o : Output) (v : World) : obj (emit o v) = obj v.
Proof. reflexivity. Qed.

Section Pools.

Variables screenWidth screenHeight : Z.
Variable rand : nat -> Z.
Variable UpdateAnimation : Animation -> Animation.

Local Abbreviation dispatch :=
  (Dispatch screenWidth screenHeight rand UpdateAnimation).
Local Abbreviation tick :=
  (Tick screenWidth screenHeight rand UpdateAnimation).
Local Abbreviation changeState :=
  (ChangeState screenWidth screenHeight rand).

Lemma poolsInRange_same (w v : World) :
  health (obj v) = health (obj w) ->
  stamina (player v) = stamina (player w) ->
  mana (player v) = mana (player w) ->
  poolsInRange w -> poolsInRange v.
Proof.
  unfold poolsInRange. intros -> -> ->. exact (fun H => H).
Qed.

Lemma poolsInRange_transition (w : World) (s : State) :
  s <> STATE_RESPAWN -> poolsInRange w ->
  poolsInRange (changeState Internal w s).
Proof.
  intros Hs.
  destruct (ChangeState_frame screenWidth screenHeight rand Internal w s Hs)
    as (_ & Hh & Hst & Hmn).
  apply poolsInRange_same; assumption.
Qed.

Lemma poolsInRange_respawn (w : World) :
  poolsInRange (changeState Internal w STATE_RESPAWN).
Proof.
  destruct (ChangeState_Internal_respawn screenWidth screenHeight rand w)
    as (_ & Hh & Hst & Hmn & _).
  unfold poolsInRange. rewrite Hh, Hst, Hmn.
  repeat split; try reflexivity; discriminate.
Qed.

Lemma walkingStride_pools (v : World) :
  let v' := walkingStride screenWidth screenHeight UpdateAnimation v in
  health (obj v') = health (obj v)
  /\ stamina (player v') = stamina (player v)
  /\ mana (player v') = mana (player v).
Proof.
  open_world v. destruct cur; run_update; repeat split.
Qed.

(** Pools in range stay in range over a tick, in every state. *)
Lemma tick_pools (w : World) : poolsInRange w -> poolsInRange (tick w).
Proof.
  intro Hp.
  assert (Hidle : STATE_IDLE <> STATE_RESPAWN) by discriminate.
  assert (Hdead : STATE_DEAD <> STATE_RESPAWN) by discriminate.
  destruct (usesWalkingUpdate (currentState (obj w))) eqn:Hwalk.
  { rewrite (Tick_walking _ _ _ _ _ Hwalk).
    rewrite PlayerUpdateWalking_eq. cbv zeta.
    destruct (Qleb (stamina (player w) - MOVE_STAMINA_COST) 0) eqn:Hm.
    - apply poolsInRange_transition; [exact Hidle|].
      destruct Hp as (Hmana & _ & Hh).
      split; [exact Hmana|]. split; [cbn; discriminate | exact Hh].
    - match goal with
      | |- context [walkingStride _ _ _ ?v] =>
          destruct (walkingStride_pools v) as (Hh1 & Hst1 & Hmn1);
          set (w1 := walkingStride screenWidth screenHeight
                       UpdateAnimation v) in *
      end.
      assert (Hp1 : poolsInRange w1).
      { destruct Hp as (Hmana & Hst & Hh). unfold poolsInRange.
        rewrite Hh1, Hst1, Hmn1. cbn.
        split; [exact Hmana|]. split; [|exact Hh].
        unfold MOVE_STAMINA_COST. lra. }
      destruct (Qleb (health (obj w)) 0);
        match goal with
        | |- context [if ?c then _ else _] => destruct c
        end;
        repeat match goal with
        | |- poolsInRange (ChangeState _ _ _ Internal _ _) =>
            apply poolsInRange_transition; [assumption|]
        end;
        exact Hp1. }
  destruct (currentState (obj w)) eqn:Hs; try discriminate Hwalk.
  - rewrite (Tick_idle _ _ _ _ _ Hs).
    destruct Hp as (Hmana & Hst & Hh).
    clear Hs Hwalk. open_world w. run_update.
    unfold poolsInRange, REGEN_RATE, MAX_MANA, MAX_STAMINA; cbn.
    split; [|split; [|exact Hh]]; fminf_cases.
  - rewrite (Tick_attacking _ _ _ _ _ Hs).
    rewrite PlayerUpdateAttacking_eq. cbv zeta.
    destruct Hp as (Hmana & Hst & Hh).
    destruct (Qleb (mana (player w) - ATTACK_MANA_COST) 0) eqn:Hm.
    + apply poolsInRange_transition; [exact Hidle|].
      split; [cbn; split; [apply Qle_refl | discriminate]|].
      split; [exact Hst | exact Hh].
    + apply Qleb_gt in Hm.
      split; [cbn; unfold ATTACK_MANA_COST in *; lra|].
      split; [exact Hst | exact Hh].
  - rewrite (Tick_shield _ _ _ _ _ Hs).
    rewrite PlayerUpdateShield_eq. cbv zeta.
    destruct Hp as (Hmana & Hst & Hh).
    match goal with
    | |- poolsInRange (emit ?o ?v) => change (poolsInRange v)
    end.
    assert (Hp1 : poolsInRange
                    (set_stamina (stamina (player w) - 0.05)
                       (advanceAnimation UpdateAnimation
                          (log "-> UPDATE -> Shield" w)))).
    { split; [exact Hmana|]. split; [cbn; lra | exact Hh]. }
    destruct (Qleb _ _); [|exact Hp1].
    apply poolsInRange_transition; assumption.
  - rewrite (Tick_dead _ _ _ _ _ Hs).
    rewrite PlayerUpdateDie_eq. cbv zeta.
    destruct (_ >=? _)%Z; [|exact Hp].
    destruct (_ >? _)%Z.
    + apply poolsInRange_respawn.
    + apply poolsInRange_transition; [exact Hidle | exact Hp].
  - rewrite (Tick_respawn _ _ _ _ _ Hs).
    rewrite PlayerUpdateRespawn_eq. cbv zeta.
    destruct (_ >=? _)%Z; [|exact Hp].
    apply poolsInRange_transition; [exact Hidle | exact Hp].
  - rewrite (Tick_collision _ _ _ _ _ Hs). exact Hp.
Qed.

Lemma dispatch_pools (w : World) (e : Event) :
  poolsInRange w -> poolsInRange (dispatch w e).
Proof.
  pose proof (Dispatch_body screenWidth screenHeight rand UpdateAnimation
                w e) as Hb.
  unfold body in Hb. injection Hb as _ _ _ _ _ Hh Hst Hmn _ _.
  apply poolsInRange_same; assumption.
Qed.

(** In every reachable world mana lies between 0 and 100, stamina is at
    most 100 and health is 100: nothing in the controller lowers health,
    and the only bound a game can break is the lower bound of stamina. *)
Theorem reachable_pools (w : World) :
  reachable screenWidth screenHeight rand UpdateAnimation w ->
  poolsInRange w.
Proof.
  induction 1 as [who heap | w e Hr IH He | w Hr IH].
  - unfold InitPlayer. cbv zeta.
    change (State_eqb (currentState (obj ?v)) STATE_IDLE) with true.
    cbv iota.
    change (PlayerEnterIdle rand ?v)
      with (runHook (PlayerEntry screenWidth screenHeight rand STATE_IDLE) v).
    match goal with
    | |- context [runHook _ ?v] =>
        destruct (entry_hook_frame screenWidth screenHeight rand
                    STATE_IDLE v ltac:(discriminate))
          as (_ & Hh & Hst & Hmn)
    end.
    unfold poolsInRange. rewrite Hh, Hst, Hmn. cbn.
    repeat split; try reflexivity; discriminate.
  - apply dispatch_pools. exact IH.
  - apply tick_pools. exact IH.
Qed.

(** One round of "shield event, then tick" from an idle player that
    cannot pay for it. *)
Lemma shield_round_unpaid (v : World) :
  currentState (obj v) = STATE_IDLE ->
  stamina (player v) <= 0.05 ->
  currentState (obj (dispatch v EVENT_SHIELD)) = STATE_SHIELD
  /\ currentState
       (obj (round screenWidth screenHeight rand UpdateAnimation
               EVENT_SHIELD v)) = STATE_IDLE
  /\ stamina
       (player (round screenWidth screenHeight rand UpdateAnimation
                  EVENT_SHIELD v)) <= stamina (player v)
  /\ stamina
       (player (round screenWidth screenHeight rand UpdateAnimation
                  EVENT_SHIELD v)) <= 0
  /\ (stamina (player v) <= 0 ->
      stamina
        (player (round screenWidth screenHeight rand UpdateAnimation
                   EVENT_SHIELD v)) < 0).
Proof.
  intros Hs Hst. unfold round.
  assert (Hup : currentState (obj (dispatch v EVENT_SHIELD)) = STATE_SHIELD
                /\ stamina (player (dispatch v EVENT_SHIELD))
                   = stamina (player v)).
  { clear - Hs. open_world v. subst. run. split; reflexivity. }
  destruct Hup as (Hsh & Hsame).
  split; [exact Hsh|]. split.
  - rewrite (Tick_shield _ _ _ _ _ Hsh).
    rewrite PlayerUpdateShield_eq. cbv zeta.
    assert (Hd : Qleb (stamina (player (dispatch v EVENT_SHIELD)) - 0.05) 0
                 = true).
    { apply Qleb_le. rewrite Hsame. lra. }
    rewrite Hd, obj_emit.
    apply ChangeState_Internal_control.
  - rewrite (shield_tick_stamina _ _ _ _ _ Hsh), Hsame.
    split; [lra|]. split; [lra|]. intro Hempty. lra.
Qed.

(** Such rounds leave the player idle and never add stamina. *)
Lemma shield_rounds_unpaid (n : nat) (w : World) :
  currentState (obj w) = STATE_IDLE ->
  stamina (player w) <= 0.05 ->
  currentState
    (obj (shieldRounds screenWidth screenHeight rand UpdateAnimation n w))
  = STATE_IDLE
  /\ stamina
       (player (shieldRounds screenWidth screenHeight rand UpdateAnimation
                  n w)) <= stamina (player w).
Proof.
  intros Hs Hst. unfold shieldRounds.
  induction n as [|n IH].
  - cbn [rounds]. split; [exact Hs | apply Qle_refl].
  - rewrite rounds_S. destruct IH as (Hs1 & Hst1).
    set (v := rounds screenWidth screenHeight rand UpdateAnimation
                EVENT_SHIELD n w) in *.
    destruct (shield_round_unpaid v Hs1) as (_ & Hi & Hle & _); [lra|].
    split; [exact Hi | lra].
Qed.

(** The shield can be raised on an empty pool, again and again.  From an
    idle player with at most 0.05 stamina, every round of "shield event,
    then tick" is let in (the player is in SHIELD after the event) and
    ends idle again, with stamina at or below 0 and not above what the
    round started with; from a pool at or below 0 every round ends
    strictly below 0.  Nothing brings stamina back up to 0 on the way. *)
Theorem shield_rounds_overdraw (n : nat) (w : World) :
  currentState (obj w) = STATE_IDLE ->
  stamina (player w) <= 0.05 ->
  let before :=
    shieldRounds screenWidth screenHeight rand UpdateAnimation n w in
  let after :=
    shieldRounds screenWidth screenHeight rand UpdateAnimation (S n) w in
  currentState (obj (dispatch before EVENT_SHIELD)) = STATE_SHIELD
  /\ currentState (obj after) = STATE_IDLE
  /\ stamina (player after) <= 0
  /\ stamina (player after) <= stamina (player before)
  /\ (stamina (player w) <= 0 -> stamina (player after) < 0).
Proof.
  intros Hs Hst before after.
  destruct (shield_rounds_unpaid n w Hs Hst) as (Hs1 & Hst1).
  fold before in Hs1, Hst1.
  assert (E : after = round screenWidth screenHeight rand UpdateAnimation
                        EVENT_SHIELD before).
  { subst after before. unfold shieldRounds. apply rounds_S. }
  rewrite E.
  destruct (shield_round_unpaid before Hs1) as (Hsh & Hi & Hle & Hz & Hneg);
    [lra|].
  split; [exact Hsh|]. split; [exact Hi|]. split; [exact Hz|].
  split; [exact Hle|].
  intro Hempty. apply Hneg. lra.
Qed.

End Pools.

(** ** Further properties: the shield, the renderer and the sequences *)

Lemma circles_app (a b : list Output) :
  circles (a ++ b) = (circles a + circles b)%nat.
Proof.
  unfold circles. rewrite filter_app, length_app. reflexivity.
Qed.

Lemma drawsNothing_refl (w : World) : drawsNothing w w.
Proof. exists []. rewrite app_nil_r. split; reflexivity. Qed.

Lemma drawsNothing_trans (a b c : World) :
  drawsNothing a b -> drawsNothing b c -> drawsNothing a c.
Proof.
  intros (o1 & Hc1 & He1) (o2 & Hc2 & He2).
  exists (o1 ++ o2). rewrite Hc2, Hc1, app_assoc, circles_app, He1, He2.
  split; reflexivity.
Qed.

(** Closes [drawsNothing] between two worlds that have been evaluated. *)
Ltac drawsNothing_by_run :=
  first [ exists []; rewrite app_nil_r; split; reflexivity
        | rewrite <- ?app_assoc; eexists; split; reflexivity ].

Lemma length_idleChoice (z : Z) :
  List.length (firstn 8 (idleChoice z)) = 8%nat.
Proof.
  unfold idleChoice.
  destruct z as [|p|p]; try reflexivity.
  do 3 (try destruct p as [p|p|]; try reflexivity).
Qed.

Section Shield.

Variables screenWidth screenHeight : Z.
Variable rand : nat -> Z.
Variable UpdateAnimation : Animation -> Animation.

Local Abbreviation dispatch :=
  (Dispatch screenWidth screenHeight rand UpdateAnimation).
Local Abbreviation tick :=
  (Tick screenWidth screenHeight rand UpdateAnimation).
Local Abbreviation changeState :=
  (ChangeState screenWidth screenHeight rand).
Local Abbreviation entryOf := (PlayerEntry screenWidth screenHeight rand).

(** *** The shield flag *)

Lemma exit_hook_shield (c : State) (w : World) :
  let w' := runHook (PlayerExit c) w in
  shieldActive (player w')
  = (if State_eqb c STATE_SHIELD then false else shieldActive (player w))
  /\ shieldRadius (player w') = shieldRadius (player w)
  /\ shieldColor (player w') = shieldColor (player w)
  /\ drawsNothing w w'.
Proof.
  open_world w.
  destruct c; run; (split; [reflexivity|]); (split; [reflexivity|]);
    (split; [reflexivity|]); drawsNothing_by_run.
Qed.

Lemma entry_hook_shield (s : State) (w : World) :
  let w' := runHook (entryOf s) w in
  shieldActive (player w')
  = (if State_eqb s STATE_SHIELD then true else shieldActive (player w))
  /\ (s <> STATE_SHIELD ->
      shieldRadius (player w') = shieldRadius (player w)
      /\ shieldColor (player w') = shieldColor (player w))
  /\ drawsNothing w w'.
Proof.
  assert (keep : forall A B : Prop, A -> B -> (s <> STATE_SHIELD -> A /\ B))
    by (intros; split; assumption).
  destruct s;
    try (open_world w; run;
         (split; [reflexivity|]);
         (split; [first [ apply keep; reflexivity | intro H; congruence ]|]);
         drawsNothing_by_run; fail).
  unfold runHook, PlayerEntry, PlayerEnterIdle.
  destruct (negb _ && _); open_world w; run;
    (split; [reflexivity|]); (split; [apply keep; reflexivity|]);
    drawsNothing_by_run.
Qed.

Lemma ChangeState_Internal_shield (w : World) (s : State) :
  shieldActive (player (changeState Internal w s))
  = (if State_eqb s STATE_SHIELD then true
     else if State_eqb (currentState (obj w)) STATE_SHIELD then false
          else shieldActive (player w))
  /\ (s <> STATE_SHIELD ->
      shieldRadius (player (changeState Internal w s))
        = shieldRadius (player w)
      /\ shieldColor (player (changeState Internal w s))
         = shieldColor (player w))
  /\ drawsNothing w (changeState Internal w s).
Proof.
  rewrite ChangeState_Internal_eq. cbv zeta.
  set (left := runHook (PlayerExit (currentState (obj w))) w).
  destruct (exit_hook_shield (currentState (obj w)) w)
    as (Hflag & Hrad & Hcol & Hout).
  fold left in Hflag, Hrad, Hcol, Hout.
  set (v := set_currentState s
              (set_previousState (currentState (obj left)) left)).
  destruct (entry_hook_shield s v) as (Hflag' & Hkeep & Hout').
  split; [|split].
  - rewrite Hflag'. destruct (State_eqb s STATE_SHIELD); [reflexivity|].
    exact Hflag.
  - intro Hs. destruct (Hkeep Hs) as (-> & ->).
    split; [exact Hrad | exact Hcol].
  - apply (drawsNothing_trans w left _ Hout). exact Hout'.
Qed.

Lemma ChangeState_flag (t : Trigger) (w : World) (s : State) :
  shieldFlagTracks w -> shieldFlagTracks (changeState t w s).
Proof.
  intro Hw.
  assert (forced : shieldFlagTracks (changeState Internal w s)).
  { unfold shieldFlagTracks in *.
    destruct (ChangeState_Internal_shield w s) as (-> & _).
    destruct (ChangeState_Internal_control screenWidth screenHeight rand w s)
      as (-> & _).
    destruct (State_eqb s STATE_SHIELD); [reflexivity|].
    rewrite Hw. destruct (State_eqb _ _); reflexivity. }
  destruct t; [|exact forced].
  rewrite ChangeState_External_eq.
  destruct (TransitionAllowed _ _); [exact forced | exact Hw].
Qed.

(** Once the shield flag says whether the player is in SHIELD, it goes
    on doing so: every event and every tick, in every state, keeps the
    flag equal to "the current state is SHIELD". *)
Theorem shield_flag_tracks_state (w : World) (e : Event) :
  shieldFlagTracks w ->
  shieldFlagTracks (dispatch w e) /\ shieldFlagTracks (tick w).
Proof.
  intro Hw. split.
  - unfold Dispatch.
    destruct (currentState (obj w)) eqn:Hs;
      cbv beta iota delta [InitPlayerFSM movingConfig EMPTY_STATE_CONFIG
                           HandleEvent];
      try exact Hw;
      destruct e;
      cbv beta iota zeta delta
        [PlayerIdleHandleEvent PlayerWalkingHandleEvent
         PlayerAttackingHandleEvent PlayerDieHandleEvent
         PlayerRespawnHandleEvent PlayerShieldHandleEvent];
      first [ exact Hw | apply ChangeState_flag; exact Hw ].
  - destruct (State_eqb (currentState (obj w)) STATE_SHIELD) eqn:Hs.
    + apply State_eqb_eq in Hs.
      rewrite (Tick_shield _ _ _ _ _ Hs).
      rewrite PlayerUpdateShield_eq. cbv zeta.
      match goal with
      | |- shieldFlagTracks (emit ?o ?v) => change (shieldFlagTracks v)
      end.
      destruct (Qleb _ _); [apply ChangeState_flag|]; exact Hw.
    + assert (Hn : currentState (obj w) <> STATE_SHIELD).
      { intro H. apply State_eqb_eq in H. congruence. }
      destruct (tick_calm screenWidth screenHeight rand UpdateAnimation w Hn)
        as ((Hflag & _) & Hn').
      unfold shieldFlagTracks in *. rewrite Hflag, Hw, Hs.
      destruct (State_eqb (currentState (obj (tick w))) STATE_SHIELD) eqn:H';
        [|reflexivity].
      apply State_eqb_eq in H'. contradiction.
Qed.

(** *** The renderer *)

(** Every SHIELD tick ends by handing exactly one circle to the renderer:
    centred on the truncated position, with the radius and the colour of
    the shield.  This holds on the tick that exhausts stamina too: the
    player has already left SHIELD, its flag is off, and the circle is
    drawn all the same. *)
Theorem shield_tick_draws (w : World) :
  currentState (obj w) = STATE_SHIELD ->
  (exists out,
     console (tick w) = console w ++ out ++ [shieldCircle w]
     /\ circles out = 0%nat)
  /\ (stamina (player w) - 0.05 <= 0 ->
      currentState (obj (tick w)) = STATE_IDLE
      /\ shieldActive (player (tick w)) = false).
Proof.
  intro Hs.
  rewrite (Tick_shield _ _ _ _ _ Hs).
  rewrite PlayerUpdateShield_eq. cbv zeta.
  set (w1 := set_stamina (stamina (player w) - 0.05)
               (advanceAnimation UpdateAnimation
                  (log "-> UPDATE -> Shield" w))).
  assert (H1 : drawsNothing w w1).
  { subst w1. clear. open_world w. run_update. drawsNothing_by_run. }
  destruct (ChangeState_Internal_shield w1 STATE_IDLE)
    as (Hflag & Hkeep & Hout).
  destruct Hkeep as (Hrad & Hcol); [discriminate|].
  destruct (ChangeState_frame_idle screenWidth screenHeight rand Internal w1)
    as (Hpos & _).
  split.
  - destruct (Qleb _ _).
    + destruct (drawsNothing_trans _ _ _ H1 Hout) as (out & Hcon & Hnone).
      exists out. split; [|exact Hnone].
      unfold emit. cbn [console]. rewrite Hcon, <- app_assoc.
      unfold shieldCircle. rewrite Hpos, Hrad, Hcol. reflexivity.
    + destruct H1 as (out & Hcon & Hnone).
      exists out. split; [|exact Hnone].
      unfold emit. cbn [console]. rewrite Hcon, <- app_assoc.
      reflexivity.
  - intro Hd. apply Qleb_le in Hd. rewrite Hd, obj_emit, player_emit.
    split; [apply ChangeState_Internal_control|].
    rewrite Hflag.
    change (State_eqb (currentState (obj w1)) STATE_SHIELD)
      with (State_eqb (currentState (obj w)) STATE_SHIELD).
    rewrite Hs. reflexivity.
Qed.

Lemma drawsNothing_transition (t : Trigger) (w v : World) (s : State) :
  drawsNothing w v -> drawsNothing w (changeState t v s).
Proof.
  intro Hv.
  assert (forced : drawsNothing w (changeState Internal v s)).
  { apply (drawsNothing_trans w v _ Hv).
    apply ChangeState_Internal_shield. }
  destruct t; [|exact forced].
  rewrite ChangeState_External_eq.
  destruct (TransitionAllowed _ _); [exact forced | exact Hv].
Qed.

Lemma drawsNothing_if (c : bool) (w a b : World) :
  drawsNothing w a -> drawsNothing w b ->
  drawsNothing w (if c then a else b).
Proof. destruct c; auto. Qed.

(** Peels the tests and the transitions off an update or a handler. *)
Ltac drawsNothing_tests :=
  repeat match goal with
  | |- drawsNothing _ (if _ then _ else _) => apply drawsNothing_if
  | |- drawsNothing _ (ChangeState _ _ _ _ _ _) =>
      apply drawsNothing_transition
  end.

Lemma walkingStride_drawsNothing (w : World) (q : Q) :
  drawsNothing w
    (walkingStride screenWidth screenHeight UpdateAnimation
       (set_stamina q (log "-> UPDATE -> Walking" w))).
Proof.
  open_world w. destruct cur; run_update; drawsNothing_by_run.
Qed.

(** Nothing else draws.  No event handler, no transition hook and no
    update other than the SHIELD update sends a draw command: what a
    dispatch prints, and what a tick taken outside SHIELD prints, is text
    only. *)
Theorem only_shield_tick_draws (w : World) (e : Event) :
  drawsNothing w (dispatch w e)
  /\ (currentState (obj w) <> STATE_SHIELD -> drawsNothing w (tick w)).
Proof.
  split.
  - unfold Dispatch.
    destruct (currentState (obj w));
      cbv beta iota delta [InitPlayerFSM movingConfig EMPTY_STATE_CONFIG
                           HandleEvent];
      try apply drawsNothing_refl;
      destruct e;
      cbv beta iota zeta delta
        [PlayerIdleHandleEvent PlayerWalkingHandleEvent
         PlayerAttackingHandleEvent PlayerDieHandleEvent
         PlayerRespawnHandleEvent PlayerShieldHandleEvent];
      drawsNothing_tests;
      clear; open_world w; run_update; drawsNothing_by_run.
  - intro Hw.
    destruct (usesWalkingUpdate (currentState (obj w))) eqn:Hwalk.
    { rewrite (Tick_walking _ _ _ _ _ Hwalk).
      rewrite PlayerUpdateWalking_eq. cbv zeta.
      drawsNothing_tests;
        try apply walkingStride_drawsNothing;
        clear; open_world w; run_update; drawsNothing_by_run. }
    destruct (currentState (obj w)) eqn:Hs; try discriminate Hwalk;
      try congruence.
    + rewrite (Tick_idle _ _ _ _ _ Hs).
      clear. open_world w. run_update. drawsNothing_by_run.
    + rewrite (Tick_attacking _ _ _ _ _ Hs).
      rewrite PlayerUpdateAttacking_eq. cbv zeta.
      drawsNothing_tests; clear; open_world w; run_update;
        drawsNothing_by_run.
    + rewrite (Tick_dead _ _ _ _ _ Hs).
      rewrite PlayerUpdateDie_eq. cbv zeta.
      drawsNothing_tests; clear; open_world w; run_update;
        drawsNothing_by_run.
    + rewrite (Tick_respawn _ _ _ _ _ Hs).
      rewrite PlayerUpdateRespawn_eq. cbv zeta.
      drawsNothing_tests; clear; open_world w; run_update;
        drawsNothing_by_run.
    + rewrite (Tick_collision _ _ _ _ _ Hs). apply drawsNothing_refl.
Qed.

(** *** The sequences *)

(** An attack faces the way the player last walked.  After a tick that
    moves a living player in a directional state, an ATTACK event starts
    the attack (whether the walk has just ended or not) and installs the
    6-frame attack sequence of that state if it is cardinal, and of the
    direction remembered before if it is diagonal. *)
Theorem attack_faces_last_move (w : World) :
  isDirectional (currentState (obj w)) = true ->
  0 < stamina (player w) - MOVE_STAMINA_COST ->
  0 < health (obj w) ->
  let facing := if isCardinal (currentState (obj w))
                then currentState (obj w) else lastDirection (obj w) in
  let w' := dispatch (tick w) EVENT_ATTACK in
  currentState (obj w') = STATE_ATTACKING
  /\ animation (obj w') = attackAnimation facing.
Proof.
  intros Hd Hm Hh facing w'.
  assert (Hs : usesWalkingUpdate (currentState (obj w)) = true).
  { destruct (currentState (obj w)); try discriminate Hd; reflexivity. }
  assert (Hafter :
    (currentState (obj (tick w)) = STATE_IDLE
     \/ currentState (obj (tick w)) = currentState (obj w))
    /\ lastDirection (obj (tick w)) = facing).
  { destruct (walking_tick_moved screenWidth screenHeight rand
                UpdateAnimation w Hs Hm) as (_ & _ & Hdir).
    rewrite Hdir. clear Hdir.
    apply Qleb_gt in Hh.
    rewrite (Tick_walking _ _ _ _ _ Hs).
    rewrite PlayerUpdateWalking_moving by exact Hm.
    cbv zeta. rewrite Hh.
    match goal with
    | |- context [walkingStride _ _ _ ?v] =>
        destruct (walkingStride_spec screenWidth screenHeight
                    UpdateAnimation v) as (_ & _ & Hl & Hc & _);
        set (w1 := walkingStride screenWidth screenHeight
                     UpdateAnimation v) in *
    end.
    split; [|exact Hl].
    destruct (_ >=? _)%Z.
    - left. apply ChangeState_Internal_control.
    - right. exact Hc. }
  destruct Hafter as (Hstate & Hface).
  subst w'. revert Hstate Hface. generalize (tick w) as v.
  generalize facing as f. clear - Hd.
  intros f v Hstate Hface.
  open_world v. subst.
  destruct Hstate as [->| ->].
  - run. split; reflexivity.
  - destruct (currentState (obj w)); try discriminate Hd;
      run; split; reflexivity.
Qed.

(** Every accepted transition into a state that has an entry hook
    installs a well-formed sequence: the frame list has exactly the
    announced number of frames (6, 8 or 9, never more than the table
    holds), and the cursor is on frame 0 with no time elapsed.  The one
    exception is the guarded re-entry of IDLE from IDLE, which installs
    nothing. *)
Theorem transition_installs_fresh_animation (w : World) (s : State) :
  s <> STATE_COLLISION ->
  (s = STATE_IDLE -> currentState (obj w) <> STATE_IDLE) ->
  freshAnimation (animation (obj (changeState Internal w s))).
Proof.
  intros Hcol Hidle.
  destruct (State_eqb s STATE_IDLE) eqn:Hs.
  - apply State_eqb_eq in Hs. subst s.
    destruct (ChangeState_Internal_idle_animation screenWidth screenHeight
                rand w (Hidle eq_refl)) as (Hin & Hn & Hc & _ & He).
    unfold freshAnimation. rewrite Hn, Hc, He.
    split; [|repeat split].
    unfold idleSequences in Hin. cbn [In] in Hin.
    destruct Hin as [H|[H|[H|[H|[H|[H|[H|[]]]]]]]]; rewrite <- H;
      reflexivity.
  - assert (Hne : s <> STATE_IDLE).
    { intro H. subst s. discriminate Hs. }
    clear Hidle Hs.
    rewrite ChangeState_Internal_eq. cbv zeta.
    generalize (runHook (PlayerExit (currentState (obj w))) w) as left.
    intro left. generalize (currentState (obj left)) as p. intro p.
    clear w. unfold freshAnimation.
    open_world left.
    destruct s; try congruence; run;
      try (repeat split; reflexivity).
    destruct dir; repeat split; reflexivity.
Qed.

End Shield.

(** ** Further properties: the properties on example worlds

    The screen is 800 by 600, the random source counts its calls, and a
    frame lasts a tenth of a second. *)



(** Attacking: "move left" does not interrupt, NONE does. *)
Lemma attacking_dispatch_table_witness :
  currentState (obj demoStriking) = STATE_ATTACKING
  /\ player (demoDispatch demoStriking EVENT_MOVE_LEFT) = player demoStriking
  /\ currentState (obj (demoDispatch demoStriking EVENT_NONE)) = STATE_IDLE.
Proof.
  assert (Hs : currentState (obj demoStriking) = STATE_ATTACKING)
    by (vm_compute; reflexivity).
  split; [exact Hs|]. split.
  - exact (attacking_dispatch_table 800 600 demoRand demoAnimator
             demoStriking EVENT_MOVE_LEFT Hs).
  - exact (proj1 (attacking_dispatch_table 800 600 demoRand demoAnimator
                    demoStriking EVENT_NONE Hs)).
Defined.

(** A dead player does not attack. *)
Lemma deaf_states_ignore_events_witness :
  deafToEvents (currentState (obj demoDead)) = true
  /\ player (demoDispatch demoDead EVENT_ATTACK) = player demoDead.
Proof.
  assert (Hs : deafToEvents (currentState (obj demoDead)) = true)
    by (vm_compute; reflexivity).
  split; [exact Hs|].
  exact (deaf_states_ignore_events 800 600 demoRand demoAnimator
           demoDead EVENT_ATTACK Hs).
Defined.

(** A shielding player dies of DIE and keeps its four lives. *)
Lemma die_event_honoured_witness :
  canDie (currentState (obj demoShielded)) = true
  /\ currentState (obj (demoDispatch demoShielded EVENT_DIE)) = STATE_DEAD
  /\ previousState (obj (demoDispatch demoShielded EVENT_DIE)) = STATE_SHIELD
  /\ lives (player (demoDispatch demoShielded EVENT_DIE)) = 4%Z.
Proof.
  assert (Hs : canDie (currentState (obj demoShielded)) = true)
    by (vm_compute; reflexivity).
  split; [exact Hs|].
  destruct (die_event_honoured 800 600 demoRand demoAnimator demoShielded Hs)
    as (Hd & Hp & _ & Hl).
  split; [exact Hd|]. split; [exact Hp | exact Hl].
Defined.

(** An empty stamina pool is full after 200 idle ticks. *)
Lemma idle_ticks_regenerate_witness :
  currentState (obj demoSpent) = STATE_IDLE
  /\ stamina (player demoSpent) = 0
  /\ currentState (obj (demoTicks 200 demoSpent)) = STATE_IDLE
  /\ stamina (player (demoTicks 200 demoSpent)) == MAX_STAMINA.
Proof.
  assert (Hs : currentState (obj demoSpent) = STATE_IDLE)
    by (vm_compute; reflexivity).
  split; [exact Hs|]. split; [reflexivity|].
  destruct (idle_ticks_regenerate 800 600 demoRand demoAnimator 199
              demoSpent Hs) as (Hi & _ & _ & _ & _ & Hfull & _).
  split; [exact Hi|].
  apply Hfull. vm_compute. discriminate.
Defined.

(** An attack started on 100 mana is still running after 99 ticks, on
    one point of mana, and ends on the 100th. *)
Lemma attacking_ticks_duration_witness :
  currentState (obj demoStriking) = STATE_ATTACKING
  /\ inject_Z (Z.of_nat 99) < mana (player demoStriking)
  /\ currentState (obj (demoTicks 99 demoStriking)) = STATE_ATTACKING
  /\ currentState (obj (demoTick (demoTicks 99 demoStriking))) = STATE_IDLE
  /\ mana (player (demoTick (demoTicks 99 demoStriking))) = 0.
Proof.
  assert (Hs : currentState (obj demoStriking) = STATE_ATTACKING)
    by (vm_compute; reflexivity).
  assert (Hm : inject_Z (Z.of_nat 99) < mana (player demoStriking))
    by (vm_compute; reflexivity).
  split; [exact Hs|]. split; [exact Hm|].
  destruct (attacking_ticks_duration 800 600 demoRand demoAnimator 99
              demoStriking Hs Hm) as (Ha & _ & Hend).
  split; [exact Ha|].
  apply Hend. vm_compute. discriminate.
Defined.

(** A walk on its last frame but one ends in IDLE and has taken some
    stamina; a walk on its first frame goes on. *)
Lemma walking_tick_completion_witness :
  usesWalkingUpdate (currentState (obj demoLastStep)) = true
  /\ 0 < stamina (player demoLastStep) - MOVE_STAMINA_COST
  /\ 0 < health (obj demoLastStep)
  /\ 0 < stamina (player (demoTick demoLastStep))
      < stamina (player demoLastStep)
  /\ currentState (obj (demoTick demoLastStep)) = STATE_IDLE
  /\ currentState (obj (demoTick demoAtEdge)) = STATE_MOVING_RIGHT.
Proof.
  assert (Hm : 0 < stamina (player demoLastStep) - MOVE_STAMINA_COST)
    by reflexivity.
  assert (Hh : 0 < health (obj demoLastStep)) by reflexivity.
  split; [reflexivity|]. split; [exact Hm|]. split; [exact Hh|].
  destruct (walking_tick_completion 800 600 demoRand demoAnimator
              demoLastStep eq_refl Hm Hh) as (Hst & Hend & _).
  split; [exact Hst|]. split.
  - apply Hend. vm_compute. discriminate.
  - destruct (walking_tick_completion 800 600 demoRand demoAnimator
                demoAtEdge eq_refl eq_refl eq_refl) as (_ & _ & Hgo).
    apply Hgo. vm_compute. reflexivity.
Defined.

(** On a screen 50 wide and high, a step ends at 18 or less on both
    axes. *)
Lemma walking_tick_far_edges_witness :
  usesWalkingUpdate (currentState (obj demoAtEdge)) = true
  /\ 0 < stamina (player demoAtEdge) - MOVE_STAMINA_COST
  /\ vx (position (obj (Tick 50 50 demoRand demoAnimator demoAtEdge)))
     <= inject_Z 50 - PLAYER_RADIUS
  /\ vy (position (obj (Tick 50 50 demoRand demoAnimator demoAtEdge)))
     <= inject_Z 50 - PLAYER_RADIUS.
Proof.
  split; [reflexivity|]. split; [reflexivity|].
  exact (walking_tick_far_edges 50 50 demoRand demoAnimator demoAtEdge
           eq_refl eq_refl).
Defined.

(** From the centre, a diagonal step lands where the displacement
    says. *)
Lemma walking_tick_free_step_witness :
  usesWalkingUpdate (currentState (obj demoDiagonal)) = true
  /\ 0 < stamina (player demoDiagonal) - MOVE_STAMINA_COST
  /\ position (obj (demoTick demoDiagonal))
     = mkVector2 (400 + vx (moveDirectionOf STATE_MOVING_UP_LEFT 2))
                 (300 + vy (moveDirectionOf STATE_MOVING_UP_LEFT 2)).
Proof.
  split; [reflexivity|]. split; [reflexivity|].
  refine (proj1 (walking_tick_free_step 800 600 demoRand demoAnimator
                   demoDiagonal eq_refl eq_refl _)).
  split; split; vm_compute; discriminate.
Defined.

(** Walking without a direction goes up and keeps the facing. *)
Lemma walking_state_moves_up_witness :
  currentState (obj demoWalking) = STATE_WALKING
  /\ 0 < stamina (player demoWalking) - MOVE_STAMINA_COST
  /\ lastDirection (obj (demoTick demoWalking))
     = lastDirection (obj demoWalking)
  /\ vy (position (obj (demoTick demoWalking))) == 298.
Proof.
  assert (Hs : currentState (obj demoWalking) = STATE_WALKING)
    by (vm_compute; reflexivity).
  assert (Hm : 0 < stamina (player demoWalking) - MOVE_STAMINA_COST)
    by (vm_compute; reflexivity).
  split; [exact Hs|]. split; [exact Hm|].
  destruct (walking_state_moves_up 800 600 demoRand demoAnimator
              demoWalking Hs Hm) as (Hp & Hl).
  split; [exact Hl|].
  unfold demoTick. rewrite Hp. vm_compute. reflexivity.
Defined.

(** The first RESPAWN tick leaves the body alone. *)
Lemma respawn_tick_witness :
  currentState (obj demoRespawning) = STATE_RESPAWN
  /\ body (demoTick demoRespawning) = body demoRespawning
  /\ currentState (obj (demoTick demoRespawning)) = STATE_RESPAWN.
Proof.
  assert (Hs : currentState (obj demoRespawning) = STATE_RESPAWN)
    by (vm_compute; reflexivity).
  split; [exact Hs|].
  destruct (respawn_tick 800 600 demoRand demoAnimator demoRespawning Hs)
    as (Hb & _ & Hgo).
  split; [exact Hb|].
  apply Hgo. vm_compute. reflexivity.
Defined.

(** The last DEAD tick sends the player to the screen centre and leaves
    the collider behind. *)
Lemma dead_tick_leaves_collider_witness :
  currentState (obj demoLastBreath) = STATE_DEAD
  /\ collider (obj (demoTick demoLastBreath)) = collider (obj demoLastBreath)
  /\ position (obj (demoTick demoLastBreath)) = screenCentre 800 600.
Proof.
  assert (Hs : currentState (obj demoLastBreath) = STATE_DEAD)
    by (vm_compute; reflexivity).
  split; [exact Hs|].
  destruct (dead_tick_leaves_collider 800 600 demoRand demoAnimator
              demoLastBreath Hs) as (Hc & Hp).
  split; [exact Hc|].
  unfold demoTick. rewrite Hp by (vm_compute; discriminate).
  vm_compute. reflexivity.
Defined.

(** A new game, one event and one tick later. *)
Lemma reachable_pools_witness :
  reachable 800 600 demoRand demoAnimator
    (demoTick (demoDispatch demoNewGame EVENT_ATTACK))
  /\ poolsInRange (demoTick (demoDispatch demoNewGame EVENT_ATTACK)).
Proof.
  assert (Hr : reachable 800 600 demoRand demoAnimator
                 (demoTick (demoDispatch demoNewGame EVENT_ATTACK))).
  { apply reach_tick. apply reach_dispatch; [|discriminate].
    apply reach_init. }
  split; [exact Hr|].
  exact (reachable_pools 800 600 demoRand demoAnimator _ Hr).
Defined.

(** The fourth shield raised on an empty pool: let in, and paid for
    below 0. *)
Lemma shield_rounds_overdraw_witness :
  currentState (obj demoSpent) = STATE_IDLE
  /\ stamina (player demoSpent) <= 0.05
  /\ stamina (player demoSpent) <= 0
  /\ currentState
       (obj (demoDispatch
               (shieldRounds 800 600 demoRand demoAnimator 3 demoSpent)
               EVENT_SHIELD)) = STATE_SHIELD
  /\ currentState
       (obj (shieldRounds 800 600 demoRand demoAnimator 4 demoSpent))
     = STATE_IDLE
  /\ stamina (player (shieldRounds 800 600 demoRand demoAnimator 4 demoSpent))
     < 0.
Proof.
  assert (Hs : currentState (obj demoSpent) = STATE_IDLE)
    by (vm_compute; reflexivity).
  assert (Hst : stamina (player demoSpent) <= 0.05)
    by (vm_compute; discriminate).
  assert (Hz : stamina (player demoSpent) <= 0)
    by (vm_compute; discriminate).
  split; [exact Hs|]. split; [exact Hst|]. split; [exact Hz|].
  destruct (shield_rounds_overdraw 800 600 demoRand demoAnimator 3
              demoSpent Hs Hst) as (Hup & Hi & _ & _ & Hneg).
  split; [exact Hup|]. split; [exact Hi|]. exact (Hneg Hz).
Defined.

(** A shielding player with its flag on, through "move left" and through
    a tick. *)
Lemma shield_flag_tracks_state_witness :
  shieldFlagTracks demoShielded
  /\ shieldFlagTracks (demoDispatch demoShielded EVENT_MOVE_LEFT)
  /\ shieldFlagTracks (demoTick demoShielded).
Proof.
  assert (Hw : shieldFlagTracks demoShielded) by (vm_compute; reflexivity).
  split; [exact Hw|].
  exact (shield_flag_tracks_state 800 600 demoRand demoAnimator
           demoShielded EVENT_MOVE_LEFT Hw).
Defined.

(** A SHIELD tick at the centre draws the circle at (400, 300). *)
Lemma shield_tick_draws_witness :
  currentState (obj demoShielded) = STATE_SHIELD
  /\ shieldCircle demoShielded = Circle 400 300 90.0 (mkColor 0 255 128 128)
  /\ exists out,
       console (demoTick demoShielded)
       = console demoShielded ++ out ++ [shieldCircle demoShielded]
       /\ circles out = 0%nat.
Proof.
  assert (Hs : currentState (obj demoShielded) = STATE_SHIELD)
    by (vm_compute; reflexivity).
  split; [exact Hs|]. split; [vm_compute; reflexivity|].
  exact (proj1 (shield_tick_draws 800 600 demoRand demoAnimator
                  demoShielded Hs)).
Defined.

(** An idle tick draws nothing. *)
Lemma only_shield_tick_draws_witness :
  currentState (obj demoIdle) <> STATE_SHIELD
  /\ drawsNothing demoIdle (demoTick demoIdle).
Proof.
  assert (Hs : currentState (obj demoIdle) <> STATE_SHIELD)
    by (vm_compute; discriminate).
  split; [exact Hs|].
  exact (proj2 (only_shield_tick_draws 800 600 demoRand demoAnimator
                  demoIdle EVENT_NONE) Hs).
Defined.

(** One step to the left, then an attack: the attack faces left. *)
Lemma attack_faces_last_move_witness :
  isDirectional (currentState (obj demoMovingLeft)) = true
  /\ 0 < stamina (player demoMovingLeft) - MOVE_STAMINA_COST
  /\ 0 < health (obj demoMovingLeft)
  /\ animation (obj (demoDispatch (demoTick demoMovingLeft) EVENT_ATTACK))
     = attackAnimation STATE_MOVING_LEFT.
Proof.
  assert (Hs : isDirectional (currentState (obj demoMovingLeft)) = true)
    by (vm_compute; reflexivity).
  assert (Hm : 0 < stamina (player demoMovingLeft) - MOVE_STAMINA_COST)
    by (vm_compute; reflexivity).
  assert (Hh : 0 < health (obj demoMovingLeft)) by (vm_compute; reflexivity).
  split; [exact Hs|]. split; [exact Hm|]. split; [exact Hh|].
  exact (proj2 (attack_faces_last_move 800 600 demoRand demoAnimator
                  demoMovingLeft Hs Hm Hh)).
Defined.

(** From IDLE into ATTACKING and from ATTACKING into IDLE. *)
Lemma transition_installs_fresh_animation_witness :
  STATE_ATTACKING <> STATE_COLLISION
  /\ freshAnimation
       (animation (obj (ChangeState 800 600 demoRand Internal demoIdle
                          STATE_ATTACKING)))
  /\ freshAnimation
       (animation (obj (ChangeState 800 600 demoRand Internal demoStriking
                          STATE_IDLE))).
Proof.
  assert (Hc : STATE_ATTACKING <> STATE_COLLISION) by discriminate.
  split; [exact Hc|]. split.
  - apply (transition_installs_fresh_animation 800 600 demoRand demoIdle
             STATE_ATTACKING Hc).
    discriminate.
  - apply (transition_installs_fresh_animation 800 600 demoRand demoStriking
             STATE_IDLE); [discriminate|].
    intros _. vm_compute. discriminate.
Defined.

(** A new game, one event and one tick later, has its four lives. *)
Lemma reachable_lives_witness :
  reachable 800 600 demoRand demoAnimator
    (demoTick (demoDispatch demoNewGame EVENT_DIE))
  /\ (1 <= lives (player (demoTick (demoDispatch demoNewGame EVENT_DIE)))
      <= 4)%Z.
Proof.
  assert (Hr : reachable 800 600 demoRand demoAnimator
                 (demoTick (demoDispatch demoNewGame EVENT_DIE))).
  { apply reach_tick. apply reach_dispatch; [|discriminate].
    apply reach_init. }
  split; [exact Hr|].
  exact (reachable_lives 800 600 demoRand demoAnimator _ Hr).
Defined.

(** The step a tired player cannot pay for ends on stamina 0, not
    below. *)
Lemma walking_tick_floor_witness :
  usesWalkingUpdate (currentState (obj demoTired)) = true
  /\ 0 <= stamina (player (demoTick demoTired)).
Proof.
  split; [reflexivity|].
  exact (walking_tick_floor 800 600 demoRand demoAnimator demoTired eq_refl).
Defined.

(** The attack that spends the last half point of mana ends on mana 0. *)
Lemma attacking_tick_floor_witness :
  currentState (obj demoAttacker) = STATE_ATTACKING
  /\ 0 <= mana (player (demoTick demoAttacker)).
Proof.
  split; [reflexivity|].
  exact (attacking_tick_floor 800 600 demoRand demoAnimator demoAttacker
           eq_refl).
Defined.
